(** * generate_rust.py: the Python-dataclass to Rust-struct generator

    A shallow embedding of [src/generate_rust.py] and the properties of its
    annotation parser, schema extractor and declaration emitter.

    Modelling conventions.
    - A Python [str] is a [string]; the case-sensitive string methods
      ([lower], [title]) are modelled on ASCII letters, other characters are
      left as they are.
    - The [ast] nodes the generator inspects are inductive types; a node kind
      the generator never looks into is kept as an opaque constructor.
    - A Python exception is a value of [exn]; a function that can raise
      returns [result].
    - A [dict] is a [gmap], a [set] a [gset]. *)

From Stdlib Require Import ZArith NArith String Ascii List Lia.
From Stdlib Require Import DecimalString HexString.
From stdpp Require Import base option list gmap sets strings.

Import ListNotations.
Set Warnings "-register-all".
Local Open Scope string_scope.
Local Open Scope list_scope.

(** ** Results of fallible code *)

Inductive exn : Type :=
| IndexError
| AttributeError
| SyntaxError
| FileNotFoundError.

Inductive result (A : Type) : Type :=
| Ok (a : A)
| Raise (e : exn).

Arguments Ok {A} a.
Arguments Raise {A} e.

Global Instance result_ret : MRet result := fun A a => Ok a.

Global Instance result_bind : MBind result := fun A B k r =>
  match r with
  | Ok a => k a
  | Raise e => Raise e
  end.

Global Instance result_fmap : FMap result := fun A B f r =>
  match r with
  | Ok a => Ok (f a)
  | Raise e => Raise e
  end.

(** ** The fragment of the Python [ast] the generator reads *)

Module ast.

(** The value carried by an [ast.Constant]. *)
Inductive constant : Type :=
| CNone
| CStr (s : string)
| CInt (z : Z)
| CBool (b : bool)
| CEllipsis.

Inductive operator : Type :=
| BitOr
| BitAnd
| Add
| Sub
| OtherOp.

(** Expression nodes.  [OtherExpr cls] is an expression node of any other
    class, named [cls]. *)
Inductive expr : Type :=
| Constant (value : constant)
| Name (id : string)
| Attribute (value : expr) (attr : string)
| Subscript (value : expr) (slice : expr)
| BinOp (left_ : expr) (op : operator) (right_ : expr)
| Tuple (elts : list expr)
| Call (func : expr) (args : list expr)
| OtherExpr (cls : string).

(** Statement nodes.  [OtherNode children] is a node of any other class
    (a function definition, an [if], an exception handler, ...) together
    with its child nodes, in [iter_child_nodes] order. *)
Inductive stmt : Type :=
| ClassDef (name : string) (bases : list expr) (decorator_list : list expr)
           (body : list stmt)
| Assign (targets : list expr) (value : expr)
| AnnAssign (target : expr) (annotation : expr)
| OtherNode (children : list stmt).

(** The class name of an expression node, as [type(node).__name__]. *)
Definition class_name (e : expr) : string :=
  match e with
  | Constant _ => "Constant"
  | Name _ => "Name"
  | Attribute _ _ => "Attribute"
  | Subscript _ _ => "Subscript"
  | BinOp _ _ _ => "BinOp"
  | Tuple _ => "Tuple"
  | Call _ _ => "Call"
  | OtherExpr cls => cls
  end.

(** [str(node)] of an [ast] node is the default object representation,
    which spells out the address of the object; [addr] is that address. *)
Definition str (addr : N) (e : expr) : string :=
  "<ast." +:+ class_name e +:+ " object at " +:+ HexString.of_N addr +:+ ">".

End ast.

Import ast.

(** ** The override tables *)

Definition FIELD_TYPE_OVERRIDES : gmap (string * string) string :=
  list_to_map
    [ (("Flag", "aliases"), "Option<Vec<String>>");
      (("SyncSupport", "queues"), "Option<Vec<String>>");
      (("SyncSupport", "stages"), "Option<Vec<Flag>>");
      (("SyncEquivalent", "stages"), "Option<Vec<Flag>>");
      (("SyncEquivalent", "accesses"), "Option<Vec<Flag>>");
      (("VulkanObject", "headerVersion"), "String");
      (("Param", "alias"), "Option<String>");
      (("Constant", "value"), "ConstantValue") ].

Definition BOXED_FIELDS : gset (string * string) :=
  {[ ("Handle", "parent") ]}.

Definition INT_TYPE_OVERRIDES : gmap (string * string) string :=
  list_to_map
    [ (("EnumField", "value"), "i64");
      (("Flag", "value"), "u64") ].

Definition RESERVED_KEYWORDS : gset string :=
  {[ "type"; "struct"; "const" ]}.

(** Truth value of a Python [str]: the empty string is false. *)
Definition truthy (s : string) : bool :=
  match s with
  | EmptyString => false
  | String _ _ => true
  end.

(** ** String methods *)

Definition is_lower (c : ascii) : bool :=
  (97 <=? N_of_ascii c)%N && (N_of_ascii c <=? 122)%N.

Definition is_upper (c : ascii) : bool :=
  (65 <=? N_of_ascii c)%N && (N_of_ascii c <=? 90)%N.

Definition to_lower (c : ascii) : ascii :=
  if is_upper c then ascii_of_N (N_of_ascii c + 32) else c.

Definition to_upper (c : ascii) : ascii :=
  if is_lower c then ascii_of_N (N_of_ascii c - 32) else c.

(** [s.lower()] *)
Fixpoint lower (s : string) : string :=
  match s with
  | EmptyString => EmptyString
  | String c s' => String (to_lower c) (lower s')
  end.

(** [s.title()]: a cased character that follows an uncased one (or starts
    the string) is upper-cased, any other cased character is lower-cased. *)
Fixpoint title_from (previous_is_cased : bool) (s : string) : string :=
  match s with
  | EmptyString => EmptyString
  | String c s' =>
      if is_lower c then
        String (if previous_is_cased then c else to_upper c) (title_from true s')
      else if is_upper c then
        String (if previous_is_cased then to_lower c else c) (title_from true s')
      else String c (title_from false s')
  end.

Definition title (s : string) : string := title_from false s.

(** [s.replace(old, new)] for a one-character [old]. *)
Fixpoint replace (old : ascii) (new : string) (s : string) : string :=
  match s with
  | EmptyString => EmptyString
  | String c s' =>
      if Ascii.eqb c old then new +:+ replace old new s'
      else String c (replace old new s')
  end.

(** [re.sub(r"([a-z])([A-Z])", r"\1_\2", name)]: scanning from the left, each
    lower-case letter directly followed by an upper-case letter gets an
    underscore between the two; matches do not overlap. *)
Fixpoint re_sub_lower_upper (name : string) : string :=
  match name with
  | EmptyString => EmptyString
  | String c1 name' =>
      match name' with
      | EmptyString => String c1 EmptyString
      | String c2 name'' =>
          if is_lower c1 && is_upper c2
          then String c1 (String "_" (String c2 (re_sub_lower_upper name'')))
          else String c1 (re_sub_lower_upper name')
      end
  end.

Definition to_snake_case (name : string) : string :=
  lower (re_sub_lower_upper name).

(** [str(i)] for a natural number. *)
Definition str_of_nat (i : nat) : string :=
  NilZero.string_of_uint (Nat.to_uint i).

(** The double-quote character, and the newline. *)
Definition dquote : string := String (ascii_of_N 34) EmptyString.
Definition newline : string := String (ascii_of_N 10) EmptyString.

(** ** parse_type *)

Section Run.

(** The address at which each node object lives during a run. *)
Variable id_of : expr -> N.

Fixpoint parse_type (node : expr) (class_name field_name : string)
  : result string :=
  let rules : result string :=
    match node with
    | Constant CNone => Ok "None"
    | Name name =>
        if String.eqb name "str" then Ok "String"
        else if String.eqb name "bool" then Ok "bool"
        else if String.eqb name "int" then
          Ok (default "u32" (INT_TYPE_OVERRIDES !! (class_name, field_name)))
        else if String.eqb name "float" then Ok "f64"
        else Ok name
    | Subscript value slice =>
        let base :=
          match value with
          | Name id => id
          | _ => ast.str (id_of value) value
          end in
        if String.eqb base "list" then
          inner ← parse_type slice class_name field_name ;
          Ok ("Vec<" +:+ inner +:+ ">")
        else if String.eqb base "dict" then
          match slice with
          | Tuple elts =>
              match elts with
              | [] => Raise IndexError
              | e0 :: rest =>
                  key ← parse_type e0 class_name field_name ;
                  match rest with
                  | [] => Raise IndexError
                  | e1 :: _ =>
                      val ← parse_type e1 class_name field_name ;
                      Ok ("IndexMap<" +:+ key +:+ ", " +:+ val +:+ ">")
                  end
              end
          | _ => Ok "UNKNOWN"
          end
        else Ok "UNKNOWN"
    | BinOp node_left BitOr node_right =>
        left_ ← parse_type node_left class_name field_name ;
        right_ ← parse_type node_right class_name field_name ;
        if String.eqb right_ "None" then
          if String.eqb left_ "int"
             && bool_decide ((class_name, field_name) = ("Constant", "value"))
          then Ok "ConstantValue"
          else if bool_decide ((class_name, field_name) ∈ BOXED_FIELDS)
          then Ok ("Option<Box<" +:+ left_ +:+ ">>")
          else Ok ("Option<" +:+ left_ +:+ ">")
        else if String.eqb left_ "int" && String.eqb right_ "float"
        then Ok "ConstantValue"
        else if String.eqb left_ "str" && String.eqb right_ "None"
        then Ok "Option<String>"
        else Ok "UNKNOWN"
    | Constant (CStr name) =>
        if bool_decide ((class_name, field_name) ∈ BOXED_FIELDS)
        then Ok ("Option<Box<" +:+ name +:+ ">>")
        else Ok name
    | _ => Ok "UNKNOWN"
    end in
  match FIELD_TYPE_OVERRIDES !! (class_name, field_name) with
  | Some override => if truthy override then Ok override else rules
  | None => rules
  end.



(** ** extract_classes *)

(** [ast.parse], the parser of the Python standard library. *)
Variable ast_parse : string -> result stmt.

(** The child nodes of a node that can hold statements.  Expression
    children are left out: no statement is below an expression. *)
Definition iter_child_nodes (node : stmt) : list stmt :=
  match node with
  | ClassDef _ _ _ body => body
  | OtherNode children => children
  | Assign _ _ | AnnAssign _ _ => []
  end.

Fixpoint node_size (node : stmt) : nat :=
  let sizes :=
    fix sizes (l : list stmt) : nat :=
      match l with
      | [] => 0
      | n :: l' => node_size n + sizes l'
      end in
  match node with
  | ClassDef _ _ _ body => S (sizes body)
  | OtherNode children => S (sizes children)
  | Assign _ _ | AnnAssign _ _ => 1
  end.

(** [ast.walk]: breadth first, [todo] is the queue.  Every step takes one
    node off the queue, so [fuel] bounds the number of nodes yielded. *)
Fixpoint walk_queue (fuel : nat) (todo : list stmt) : list stmt :=
  match fuel with
  | O => []
  | S fuel' =>
      match todo with
      | [] => []
      | node :: todo' =>
          node :: walk_queue fuel' (todo' ++ iter_child_nodes node)
      end
  end.

Definition walk (tree : stmt) : list stmt :=
  walk_queue (node_size tree) [tree].

Definition is_dataclass_decorator (d : expr) : bool :=
  match d with
  | Name id => String.eqb id "dataclass"
  | Call (Name id) _ => String.eqb id "dataclass"
  | _ => false
  end.

Definition is_enum_base (b : expr) : bool :=
  match b with
  | Name id => String.eqb id "Enum"
  | _ => false
  end.

(** [item.targets[0].id] *)
Definition first_target_id (targets : list expr) : result string :=
  match targets with
  | [] => Raise IndexError
  | Name id :: _ => Ok id
  | _ :: _ => Raise AttributeError
  end.

(** The loop over the body of an enum class. *)
Fixpoint enum_values (values : list string) (body : list stmt)
  : result (list string) :=
  match body with
  | [] => Ok values
  | item :: body' =>
      match item with
      | Assign targets _ =>
          name ← first_target_id targets ;
          enum_values (values ++ [name]) body'
      | _ => enum_values values body'
      end
  end.

(** The loop over the body of a dataclass. *)
Fixpoint dataclass_fields (class_name : string)
    (fields : list (string * string)) (body : list stmt)
  : result (list (string * string)) :=
  match body with
  | [] => Ok fields
  | item :: body' =>
      match item with
      | AnnAssign (Name field_name) annotation =>
          rust_type ← parse_type annotation class_name field_name ;
          dataclass_fields class_name (fields ++ [(field_name, rust_type)])
            body'
      | _ => dataclass_fields class_name fields body'
      end
  end.

Definition collections : Type :=
  list (string * list (string * string)) * list (string * list string).

(** The body of the loop over [ast.walk(tree)]. *)
Definition visit (acc : collections) (node : stmt) : result collections :=
  let '(dataclasses, enums) := acc in
  match node with
  | ClassDef name bases decorator_list body =>
      let is_dataclass := existsb is_dataclass_decorator decorator_list in
      let is_enum := existsb is_enum_base bases in
      if is_enum then
        values ← enum_values [] body ;
        Ok (dataclasses, enums ++ [(name, values)])
      else if is_dataclass then
        fields ← dataclass_fields name [] body ;
        Ok (dataclasses ++ [(name, fields)], enums)
      else Ok (dataclasses, enums)
  | _ => Ok (dataclasses, enums)
  end.

Fixpoint visit_all (acc : collections) (nodes : list stmt)
  : result collections :=
  match nodes with
  | [] => Ok acc
  | node :: nodes' => acc' ← visit acc node ; visit_all acc' nodes'
  end.

Definition extract_tree (tree : stmt) : result collections :=
  visit_all ([], []) (walk tree).

Definition extract_classes (source : string) : result collections :=
  tree ← ast_parse source ;
  extract_tree tree.

End Run.

(** ** generate_rust *)

Definition preamble : list string :=
  [ "use indexmap::IndexMap;";
    "use serde::{Deserialize, Serialize};";
    "use serde_repr::{Deserialize_repr, Serialize_repr};";
    EmptyString ].

Definition order : list string :=
  [ "FeatureRequirement"; "Extension"; "Version"; "Legacy"; "Handle";
    "ExternSync"; "Param"; "CommandScope"; "Command"; "Member"; "Struct";
    "EnumField"; "Enum"; "Flag"; "Bitmask"; "Flags"; "ConstantValue";
    "Constant"; "FormatComponent"; "FormatPlane"; "Format"; "SyncSupport";
    "SyncEquivalent"; "SyncStage"; "SyncAccess"; "SyncPipelineStage";
    "SyncPipeline"; "SpirvEnables"; "Spirv"; "VideoRequiredCapabilities";
    "VideoFormat"; "VideoProfileMember"; "VideoProfiles"; "VideoCodec";
    "VideoStdHeader"; "VideoStd"; "VulkanObject" ].

(** The dict comprehension [{name: x for name, x in items}]: a later item
    replaces an earlier one of the same name. *)
Definition dict_of {V : Type} (items : list (string * V)) : gmap string V :=
  foldl (fun m item => <[item.1 := item.2]> m) ∅ items.

(** [enumerate(values, start)] *)
Fixpoint enumerate {A : Type} (start : nat) (values : list A)
  : list (nat * A) :=
  match values with
  | [] => []
  | v :: values' => (start, v) :: enumerate (S start) values'
  end.

(** [l.insert(i, x)] for [i] within the list. *)
Definition list_insert_at {A : Type} (i : nat) (x : A) (l : list A) : list A :=
  take i l ++ x :: drop i l.

(** The identifier of an enum variant. *)
Definition rust_variant_name (v : string) : string :=
  let rust_name :=
    replace " " EmptyString (title (replace "_" " " v)) in
  if String.eqb rust_name "None" then "None" else rust_name.

(** One round of the loop over the variants of an enum. *)
Definition emit_variant (lines : list string) (iv : nat * string)
  : list string :=
  let '(i, v) := iv in
  lines ++ ["    " +:+ rust_variant_name v +:+ " = " +:+ str_of_nat i +:+ ","].

(** One round of the loop over the fields of a record. *)
Definition emit_field (lines : list string) (field : string * string)
  : list string :=
  let '(field_name, rust_type) := field in
  let snake_name := to_snake_case field_name in
  let needs_rename :=
    negb (String.eqb snake_name field_name)
    || bool_decide (field_name ∈ RESERVED_KEYWORDS) in
  let snake_name :=
    if bool_decide (field_name ∈ RESERVED_KEYWORDS)
    then field_name +:+ "_" else snake_name in
  let lines :=
    if needs_rename
    then lines ++ ["    #[serde(rename = " +:+ dquote +:+ field_name
                     +:+ dquote +:+ ")]"]
    else lines in
  lines ++ ["    pub " +:+ snake_name +:+ ": " +:+ rust_type +:+ ","].

(** One round of the loop over [order]. *)
Definition emit_item
    (dc_map : gmap string (list (string * string)))
    (enum_map : gmap string (list string))
    (lines : list string) (name : string) : list string :=
  if String.eqb name "ConstantValue" then
    lines ++
      [ "#[derive(Clone, Debug, Deserialize, Serialize)]";
        "#[serde(untagged)]";
        "pub enum ConstantValue {";
        "    Int(u64),";
        "    Float(f64),";
        "}";
        EmptyString ]
  else
    match enum_map !! name with
    | Some values =>
        let lines :=
          lines ++ ["#[derive(Clone, Copy, Debug, Deserialize_repr, Eq, PartialEq, Serialize_repr)]"] in
        let lines := lines ++ ["#[repr(u8)]"] in
        let lines := lines ++ ["pub enum " +:+ name +:+ " {"] in
        let lines := foldl emit_variant lines (enumerate 1 values) in
        let lines := lines ++ ["}"] in
        lines ++ [EmptyString]
    | None =>
        match dc_map !! name with
        | Some fields =>
            let derives := ["Clone"; "Debug"; "Deserialize"; "Serialize"] in
            let derives :=
              if String.eqb name "VideoStd"
              then list_insert_at 2 "Default" derives else derives in
            let lines :=
              lines ++ ["#[derive(" +:+ String.concat ", " derives +:+ ")]"] in
            let lines := lines ++ ["pub struct " +:+ name +:+ " {"] in
            let lines := foldl emit_field lines fields in
            let lines := lines ++ ["}"] in
            lines ++ [EmptyString]
        | None => lines
        end
    end.

(** The list [lines] when the loop over [order] is done. *)
Definition generate_rust_lines
    (dataclasses : list (string * list (string * string)))
    (enums : list (string * list string)) : list string :=
  let dc_map := dict_of dataclasses in
  let enum_map := dict_of enums in
  foldl (emit_item dc_map enum_map) preamble order.

Definition generate_rust
    (dataclasses : list (string * list (string * string)))
    (enums : list (string * list string)) : string :=
  String.concat newline (generate_rust_lines dataclasses enums).

(** ** main *)

(** The files the run can see, by path, and the directories that exist. *)
Record filesystem : Type := {
  files : gmap string string;
  dirs : gset string
}.

(** [dir / name] *)
Definition path_join (dir name : string) : string := dir +:+ "/" +:+ name.

Definition read_text (fs : filesystem) (path : string) : result string :=
  match files fs !! path with
  | Some text => Ok text
  | None => Raise FileNotFoundError
  end.

Definition write_text (fs : filesystem) (dir name text : string)
  : result filesystem :=
  if bool_decide (dir ∈ dirs fs)
  then Ok {| files := <[path_join dir name := text]> (files fs);
             dirs := dirs fs |}
  else Raise FileNotFoundError.

(** What a run leaves behind: the file system and the lines printed. *)
Definition outcome : Type := filesystem * list string.

Definition main (id_of : expr -> N) (ast_parse : string -> result stmt)
    (script_dir : string) (fs : filesystem) : result outcome :=
  let py_file := path_join script_dir "_vulkan_object.py" in
  let rs_dir := path_join script_dir "src" in
  let rs_file := path_join rs_dir "vulkan_object.rs" in
  source ← read_text fs py_file ;
  '(dataclasses, enums) ← extract_classes id_of ast_parse source ;
  let rust_code := generate_rust dataclasses enums in
  fs' ← write_text fs rs_dir "vulkan_object.rs" rust_code ;
  Ok (fs', ["Generated " +:+ rs_file]).

(** ** The vocabulary of the statements *)

(** The annotation [int | float]. *)
Definition int_or_float : expr := BinOp (Name "int") BitOr (Name "float").

(** The annotation [T | None]. *)
Definition or_none (T : expr) : expr := BinOp T BitOr (Constant CNone).

(** How many times [pat] occurs in [s]. *)
Fixpoint count_substring (pat s : string) : nat :=
  match s with
  | EmptyString => 0
  | String _ s' =>
      (if String.prefix pat s then 1 else 0) + count_substring pat s'
  end.

(** The identifier a field is emitted under: the last value of [snake_name]
    in the loop over the fields. *)
Definition field_identifier (field_name : string) : string :=
  if bool_decide (field_name ∈ RESERVED_KEYWORDS)
  then field_name +:+ "_" else to_snake_case field_name.

Definition rename_line (field_name : string) : string :=
  "    #[serde(rename = " +:+ dquote +:+ field_name +:+ dquote +:+ ")]".

Definition field_line (field_name rust_type : string) : string :=
  "    pub " +:+ field_identifier field_name +:+ ": " +:+ rust_type +:+ ",".

Definition variant_line (i : nat) (v : string) : string :=
  "    " +:+ rust_variant_name v +:+ " = " +:+ str_of_nat i +:+ ",".

(** The line that opens a declaration starts at the first column with
    [pub]; every other emitted line starts with a blank, a [#] or a brace,
    or is empty. *)
Definition is_declaration_line (line : string) : bool :=
  String.prefix "pub " line.

(** The declaration an entry of [order] stands for, if any. *)
Definition declaration_of
    (dc_map : gmap string (list (string * string)))
    (enum_map : gmap string (list string)) (name : string) : option string :=
  if String.eqb name "ConstantValue" then Some "pub enum ConstantValue {"
  else
    match enum_map !! name with
    | Some _ => Some ("pub enum " +:+ name +:+ " {")
    | None =>
        match dc_map !! name with
        | Some _ => Some ("pub struct " +:+ name +:+ " {")
        | None => None
        end
    end.

(** A source file with one record, [Version], whose only field is annotated
    [set[str]], a generic the parser has no rule for. *)
Definition unknown_source : string :=
  String.concat newline
    [ "@dataclass"; "class Version:"; "    tags: set[str]" ].

Definition unknown_tree : stmt :=
  OtherNode
    [ ClassDef "Version" [] [Name "dataclass"]
        [ AnnAssign (Name "tags") (Subscript (Name "set") (Name "str")) ] ].

(** A directory with a source file and the output directory. *)
Definition script_fs (source : string) : filesystem :=
  {| files := {[ "./_vulkan_object.py" := source ]};
     dirs := {[ "./src" ]} |}.

(** The written file and the printed lines of a run. *)
Definition written_and_printed (r : result outcome)
  : result (option string * list string) :=
  out ← r ; Ok (files out.1 !! "./src/vulkan_object.rs", out.2).

(** Two placements of the node objects give the same parse of [node]. *)
Definition same_parse (id1 id2 : expr -> N) (node : expr) : Prop :=
  forall c f, parse_type id1 node c f = parse_type id2 node c f.

(** Extraction followed by emission, as [main] chains them. *)
Definition transform (id_of : expr -> N) (ast_parse : string -> result stmt)
    (source : string) : result string :=
  '(dataclasses, enums) ← extract_classes id_of ast_parse source ;
  Ok (generate_rust dataclasses enums).

(** The nodes of a tree, the node itself first. *)
Fixpoint subnodes (node : stmt) : list stmt :=
  let all :=
    fix all (l : list stmt) : list stmt :=
      match l with
      | [] => []
      | n :: l' => subnodes n ++ all l'
      end in
  match node with
  | ClassDef _ _ _ body => node :: all body
  | OtherNode children => node :: all children
  | Assign _ _ | AnnAssign _ _ => [node]
  end.

Definition queue_size (todo : list stmt) : nat :=
  list_sum (map node_size todo).

Definition is_enum_class (node : stmt) : bool :=
  match node with
  | ClassDef _ bases _ _ => existsb is_enum_base bases
  | _ => false
  end.

Definition is_dataclass_class (node : stmt) : bool :=
  match node with
  | ClassDef _ _ decorator_list _ =>
      existsb is_dataclass_decorator decorator_list
  | _ => false
  end.

Definition node_name (node : stmt) : string :=
  match node with
  | ClassDef name _ _ _ => name
  | _ => EmptyString
  end.

(** Every character of [s] passes [p]. *)
Fixpoint string_forall (p : ascii -> bool) (s : string) : bool :=
  match s with
  | EmptyString => true
  | String c s' => p c && string_forall p s'
  end.

(** [s] holds no upper-case letter. *)
Definition no_upper (s : string) : bool :=
  string_forall (fun c => negb (is_upper c)) s.





(** An assignment or an annotated assignment: a statement without child
    statements. *)
Definition simple_stmt (node : stmt) : bool :=
  match node with
  | Assign _ _ | AnnAssign _ _ => true
  | ClassDef _ _ _ _ | OtherNode _ => false
  end.

(** The name an assignment binds first, when its first target is a name. *)
Definition assigned_name (item : stmt) : option string :=
  match item with
  | Assign (Name id :: _) _ => Some id
  | _ => None
  end.

(** [item] is no assignment, or an assignment whose first target is a
    name. *)
Definition well_targeted (item : stmt) : bool :=
  match item with
  | Assign (Name _ :: _) _ => true
  | Assign _ _ => false
  | _ => true
  end.

(** The name and the annotation of an annotated assignment to a name. *)
Definition annotated (item : stmt) : option (string * expr) :=
  match item with
  | AnnAssign (Name field_name) annotation => Some (field_name, annotation)
  | _ => None
  end.


(** ** Tactics *)



(** * Properties *)

(** ** The annotation parser *)

Lemma overrides_in_table k v :
  FIELD_TYPE_OVERRIDES !! k = Some v ->
  (k, v) ∈
    [ (("Flag", "aliases"), "Option<Vec<String>>");
      (("SyncSupport", "queues"), "Option<Vec<String>>");
      (("SyncSupport", "stages"), "Option<Vec<Flag>>");
      (("SyncEquivalent", "stages"), "Option<Vec<Flag>>");
      (("SyncEquivalent", "accesses"), "Option<Vec<Flag>>");
      (("VulkanObject", "headerVersion"), "String");
      (("Param", "alias"), "Option<String>");
      (("Constant", "value"), "ConstantValue") ].
Proof. intros H. apply elem_of_list_to_map_2 in H. exact H. Qed.

Lemma overrides_truthy k v :
  FIELD_TYPE_OVERRIDES !! k = Some v -> truthy v = true.
Proof.
  intros H%overrides_in_table.
  repeat (apply elem_of_cons in H as [H | H]; [by inversion H |]).
  by apply elem_of_nil in H.
Qed.

Lemma constant_value_override k :
  FIELD_TYPE_OVERRIDES !! k = Some "ConstantValue" <-> k = ("Constant", "value").
Proof.
  split.
  - intros H%overrides_in_table.
    repeat (apply elem_of_cons in H as [H | H]; [by inversion H |]).
    by apply elem_of_nil in H.
  - intros ->. reflexivity.
Qed.

(** An explicit type override wins over the annotation, whatever it is. *)
Lemma parse_type_override id_of node c f override :
  FIELD_TYPE_OVERRIDES !! (c, f) = Some override ->
  parse_type id_of node c f = Ok override.
Proof.
  intros H. pose proof (overrides_truthy _ _ H) as Ht.
  destruct node; simpl; rewrite H, Ht; reflexivity.
Qed.

(** Without an override the literal [None] parses to the marker "None". *)
Lemma parse_type_none id_of c f :
  FIELD_TYPE_OVERRIDES !! (c, f) = None ->
  parse_type id_of (Constant CNone) c f = Ok "None".
Proof. intros H. simpl. rewrite H. reflexivity. Qed.

Lemma parse_type_int id_of c f :
  FIELD_TYPE_OVERRIDES !! (c, f) = None ->
  parse_type id_of (Name "int") c f =
    Ok (default "u32" (INT_TYPE_OVERRIDES !! (c, f))).
Proof. intros H. simpl. rewrite H. reflexivity. Qed.

Lemma int_width_in_table k v :
  INT_TYPE_OVERRIDES !! k = Some v -> v = "i64" \/ v = "u64".
Proof.
  intros H. apply elem_of_list_to_map_2 in H.
  repeat (apply elem_of_cons in H as [H | H]; [inversion H; auto |]).
  by apply elem_of_nil in H.
Qed.

(** The rendering of [int] is never the source word "int". *)
Lemma int_width_not_int k :
  String.eqb (default "u32" (INT_TYPE_OVERRIDES !! k)) "int" = false.
Proof.
  destruct (INT_TYPE_OVERRIDES !! k) as [v|] eqn:E; simpl; [|reflexivity].
  destruct (int_width_in_table _ _ E) as [-> | ->]; reflexivity.
Qed.

(** The scalar annotations. *)
Example parse_scalars id_of :
  parse_type id_of (Name "str") "Version" "name" = Ok "String"
  /\ parse_type id_of (Name "bool") "Version" "name" = Ok "bool"
  /\ parse_type id_of (Name "int") "Version" "name" = Ok "u32"
  /\ parse_type id_of (Name "int") "EnumField" "value" = Ok "i64"
  /\ parse_type id_of (Name "int") "Flag" "value" = Ok "u64"
  /\ parse_type id_of (Name "float") "Version" "name" = Ok "f64"
  /\ parse_type id_of (Name "Extension") "Version" "name" = Ok "Extension".
Proof. repeat split. Qed.

(** Generics: [list[str]], [dict[str, list[Flag]]], and a [dict] subscript
    with fewer than two arguments, on which [elts[1]] raises. *)
Example parse_generics id_of :
  parse_type id_of (Subscript (Name "list") (Name "str")) "Version" "name"
    = Ok "Vec<String>"
  /\ parse_type id_of
       (Subscript (Name "dict")
          (Tuple [Name "str"; Subscript (Name "list") (Name "Flag")]))
       "Version" "name"
     = Ok "IndexMap<String, Vec<Flag>>"
  /\ parse_type id_of (Subscript (Name "dict") (Tuple [Name "str"]))
       "Version" "name"
     = Raise IndexError
  /\ parse_type id_of (Subscript (Name "dict") (Name "str")) "Version" "name"
     = Ok "UNKNOWN"
  /\ parse_type id_of
       (Subscript (Attribute (Name "typing") "List") (Name "str"))
       "Version" "name"
     = Ok "UNKNOWN".
Proof. repeat split. Qed.

(** C1, as stated, fails: in a field with an explicit type override the
    annotation [int | float] parses to the override, here a vector type. *)
Lemma int_or_float_not_always_union :
  ~ (forall (id_of : expr -> N) (c f : string),
       parse_type id_of int_or_float c f = Ok "ConstantValue").
Proof.
  intros H. specialize (H (fun _ => 0%N) "Flag" "aliases").
  vm_compute in H. discriminate H.
Qed.

(** C1 (amended): in a field with an explicit type override, [int | float]
    parses to that override, whatever the other tables say; the result is the
    numeric union ConstantValue exactly for (Constant, value). *)
Theorem int_or_float_overridden (id_of : expr -> N) (c f override : string) :
  FIELD_TYPE_OVERRIDES !! (c, f) = Some override ->
  parse_type id_of int_or_float c f = Ok override /\
  (override = "ConstantValue" <-> (c, f) = ("Constant", "value")).
Proof.
  intros H. split.
  - by apply parse_type_override.
  - rewrite <- constant_value_override. split.
    + intros <-. exact H.
    + intros H'. rewrite H in H'. by inversion H'.
Qed.

Lemma int_or_float_overridden_witness :
  FIELD_TYPE_OVERRIDES !! ("Constant", "value") = Some "ConstantValue" /\
  parse_type (fun _ => 0%N) int_or_float "Constant" "value"
    = Ok "ConstantValue".
Proof.
  split; [reflexivity |].
  apply (int_or_float_overridden (fun _ => 0%N) "Constant" "value"
           "ConstantValue").
  reflexivity.
Defined.

(** The structural rule for [int | float] compares the rendered alternatives
    with the source words "int" and "float"; a field without a type override
    therefore gets "UNKNOWN" for the annotation [int | float]. *)
Lemma int_or_float_without_override id_of c f :
  FIELD_TYPE_OVERRIDES !! (c, f) = None ->
  parse_type id_of int_or_float c f = Ok "UNKNOWN".
Proof.
  intros H. unfold int_or_float. simpl. rewrite H. simpl.
  rewrite int_width_not_int. simpl. rewrite andb_false_r. reflexivity.
Qed.

(** The same rule does fire on quoted alternatives. *)
Lemma quoted_int_or_float id_of :
  parse_type id_of
    (BinOp (Constant (CStr "int")) BitOr (Constant (CStr "float")))
    "Version" "major" = Ok "ConstantValue".
Proof. reflexivity. Qed.

Lemma boxed_field_iff c f :
  (c, f) ∈ BOXED_FIELDS <-> (c, f) = ("Handle", "parent").
Proof. unfold BOXED_FIELDS. apply elem_of_singleton. Qed.

Lemma boxed_not_overridden c f :
  (c, f) ∈ BOXED_FIELDS -> FIELD_TYPE_OVERRIDES !! (c, f) = None.
Proof. intros H%boxed_field_iff. inversion H. reflexivity. Qed.

(** In a boxed field a quoted forward reference is rendered behind one
    optional heap indirection. *)
Lemma boxed_forward_reference id_of c f name :
  (c, f) ∈ BOXED_FIELDS ->
  parse_type id_of (Constant (CStr name)) c f
    = Ok ("Option<Box<" +:+ name +:+ ">>").
Proof.
  intros H. pose proof (boxed_not_overridden _ _ H) as Hov.
  simpl. rewrite Hov. rewrite bool_decide_eq_true_2 by exact H. reflexivity.
Qed.

(** So is the union of a bare class name with [None]. *)
Lemma boxed_name_or_none id_of :
  parse_type id_of (or_none (Name "Handle")) "Handle" "parent"
    = Ok "Option<Box<Handle>>".
Proof. reflexivity. Qed.

(** The union of a quoted forward reference with [None] is wrapped by both
    rules, one inside the other. *)
Lemma boxed_forward_reference_or_none id_of c f name :
  (c, f) ∈ BOXED_FIELDS ->
  parse_type id_of (or_none (Constant (CStr name))) c f
    = Ok ("Option<Box<" +:+ ("Option<Box<" +:+ name +:+ ">>") +:+ ">>").
Proof.
  intros H. pose proof (boxed_not_overridden _ _ H) as Hov.
  apply boxed_field_iff in H. inversion H; subst. reflexivity.
Qed.

(** C4 at its own example: for (Handle, parent) the annotation
    ["Handle" | None] is rendered with two heap indirections and two optional
    layers, not one of each. *)
Theorem handle_parent_quoted_or_none (id_of : expr -> N) :
  parse_type id_of (or_none (Constant (CStr "Handle"))) "Handle" "parent"
    = Ok "Option<Box<Option<Box<Handle>>>>"
  /\ count_substring "Box<" "Option<Box<Option<Box<Handle>>>>" = 2
  /\ count_substring "Option<" "Option<Box<Option<Box<Handle>>>>" = 2.
Proof. repeat split. Qed.

(** C5: in a field with no type override that is not boxed, [T | None]
    parses to the optional wrapper around the parse of [T] (and raises what
    the parse of [T] raises). *)
Theorem optional_of_parse (id_of : expr -> N) (T : expr) (c f : string) :
  FIELD_TYPE_OVERRIDES !! (c, f) = None ->
  (c, f) ∉ BOXED_FIELDS ->
  parse_type id_of (or_none T) c f =
    (inner ← parse_type id_of T c f ; Ok ("Option<" +:+ inner +:+ ">")).
Proof.
  intros Hov Hbox.
  assert (Hcv : bool_decide ((c, f) = ("Constant", "value")) = false).
  { apply bool_decide_eq_false_2. intros E. rewrite E in Hov. discriminate. }
  unfold or_none. simpl. rewrite !Hov.
  destruct (parse_type id_of T c f) as [inner | e]; [| reflexivity].
  simpl. rewrite Hcv, andb_false_r.
  rewrite bool_decide_eq_false_2 by exact Hbox. reflexivity.
Qed.

Lemma optional_of_parse_witness :
  parse_type (fun _ => 0%N) (or_none (Name "int")) "Version" "major"
    = (inner ← parse_type (fun _ => 0%N) (Name "int") "Version" "major" ;
       Ok ("Option<" +:+ inner +:+ ">")).
Proof.
  apply (optional_of_parse (fun _ => 0%N) (Name "int") "Version" "major").
  - reflexivity.
  - vm_compute. discriminate.
Defined.

(** ** The declaration emitter *)

Lemma length_append (s t : string) :
  String.length (s +:+ t) = String.length s + String.length t.
Proof. induction s as [| c s IH]; simpl; [reflexivity | by rewrite IH]. Qed.

Lemma append_nonempty_neq (s t : string) :
  t <> EmptyString -> s +:+ t <> s.
Proof.
  intros Ht E. apply (f_equal String.length) in E.
  rewrite length_append in E. destruct t; [done | simpl in E; lia].
Qed.

Lemma emit_variant_app lines iv :
  emit_variant lines iv = lines ++ [variant_line iv.1 iv.2].
Proof. destruct iv. reflexivity. Qed.

Lemma foldl_emit_variant lines start values :
  foldl emit_variant lines (enumerate start values)
  = lines ++ imap (fun i v => variant_line (start + i) v) values.
Proof.
  revert lines start.
  induction values as [| v values IH]; intros lines start; simpl.
  - by rewrite app_nil_r.
  - rewrite IH. rewrite <- app_assoc. simpl. rewrite Nat.add_0_r.
    do 2 f_equal. apply imap_ext. intros i x _. simpl.
    f_equal. lia.
Qed.

Lemma emit_field_app lines field :
  emit_field lines field = lines ++ emit_field [] field.
Proof.
  destruct field as [field_name rust_type]. unfold emit_field.
  destruct (_ || _); simpl; [| reflexivity].
  by rewrite <- app_assoc.
Qed.

Lemma foldl_emit_field lines fields :
  foldl emit_field lines fields = lines ++ flat_map (emit_field []) fields.
Proof.
  revert lines. induction fields as [| fld fields IH]; intros lines; simpl.
  - by rewrite app_nil_r.
  - rewrite IH, emit_field_app. by rewrite <- app_assoc.
Qed.

Lemma emit_item_app dc_map enum_map lines name :
  emit_item dc_map enum_map lines name
  = lines ++ emit_item dc_map enum_map [] name.
Proof.
  unfold emit_item.
  destruct (String.eqb name "ConstantValue"); [reflexivity |].
  destruct (enum_map !! name) as [values |].
  - rewrite !foldl_emit_variant. simpl. by rewrite <- !app_assoc.
  - destruct (dc_map !! name) as [fields |]; [| by rewrite app_nil_r].
    rewrite !foldl_emit_field. simpl. by rewrite <- !app_assoc.
Qed.

Lemma foldl_emit_item dc_map enum_map lines names :
  foldl (emit_item dc_map enum_map) lines names
  = lines ++ flat_map (emit_item dc_map enum_map []) names.
Proof.
  revert lines. induction names as [| name names IH]; intros lines; simpl.
  - by rewrite app_nil_r.
  - rewrite IH, emit_item_app. by rewrite <- app_assoc.
Qed.

(** The output is the preamble followed by the items of [order], in order. *)
Lemma generate_rust_lines_eq dataclasses enums :
  generate_rust_lines dataclasses enums
  = preamble
    ++ flat_map (emit_item (dict_of dataclasses) (dict_of enums) []) order.
Proof. unfold generate_rust_lines. apply foldl_emit_item. Qed.

(** An item of [order] is a contiguous run of the output. *)
Lemma item_in_output dataclasses enums name :
  name ∈ order ->
  exists before after,
    generate_rust_lines dataclasses enums
    = before ++ emit_item (dict_of dataclasses) (dict_of enums) [] name
        ++ after.
Proof.
  intros [o1 [o2 E]]%list_elem_of_split.
  rewrite generate_rust_lines_eq, E.
  exists (preamble
          ++ flat_map (emit_item (dict_of dataclasses) (dict_of enums) []) o1),
    (flat_map (emit_item (dict_of dataclasses) (dict_of enums) []) o2).
  rewrite flat_map_app. simpl. by rewrite <- ?app_assoc.
Qed.

(** The lines of an enum item. *)
Lemma emit_item_enum dc_map enum_map name values :
  name <> "ConstantValue" ->
  enum_map !! name = Some values ->
  emit_item dc_map enum_map [] name
  = [ "#[derive(Clone, Copy, Debug, Deserialize_repr, Eq, PartialEq, Serialize_repr)]";
      "#[repr(u8)]";
      "pub enum " +:+ name +:+ " {" ]
    ++ imap (fun i v => variant_line (S i) v) values
    ++ [ "}"; EmptyString ].
Proof.
  intros Hname Hvalues. unfold emit_item.
  rewrite (proj2 (String.eqb_neq _ _) Hname), Hvalues.
  rewrite foldl_emit_variant. simpl. by rewrite <- !app_assoc.
Qed.

(** The lines of a record item. *)
Lemma emit_item_record dc_map enum_map name fields :
  name <> "ConstantValue" ->
  enum_map !! name = None ->
  dc_map !! name = Some fields ->
  emit_item dc_map enum_map [] name
  = [ "#[derive("
        +:+ String.concat ", "
              (if String.eqb name "VideoStd"
               then ["Clone"; "Debug"; "Default"; "Deserialize"; "Serialize"]
               else ["Clone"; "Debug"; "Deserialize"; "Serialize"])
        +:+ ")]";
      "pub struct " +:+ name +:+ " {" ]
    ++ flat_map (emit_field []) fields
    ++ [ "}"; EmptyString ].
Proof.
  intros Hname Henum Hfields. unfold emit_item.
  rewrite (proj2 (String.eqb_neq _ _) Hname), Henum, Hfields.
  rewrite foldl_emit_field. simpl.
  destruct (String.eqb name "VideoStd"); simpl; by rewrite <- !app_assoc.
Qed.

Lemma rust_variant_name_none : rust_variant_name "none" = "None".
Proof. reflexivity. Qed.

(** C6: the enum item of an extracted enum lists its variants in declared
    order, the i-th of them (counting from one) with ordinal i, and the
    variant "none" gets the identifier "None". *)
Theorem enum_ordinals
    (dataclasses : list (string * list (string * string)))
    (enums : list (string * list string))
    (name : string) (values : list string) :
  name ∈ order ->
  name <> "ConstantValue" ->
  dict_of enums !! name = Some values ->
  (exists before after,
     generate_rust_lines dataclasses enums
     = before
       ++ [ "#[derive(Clone, Copy, Debug, Deserialize_repr, Eq, PartialEq, Serialize_repr)]";
            "#[repr(u8)]";
            "pub enum " +:+ name +:+ " {" ]
       ++ imap (fun i v =>
                  "    " +:+ rust_variant_name v +:+ " = "
                    +:+ str_of_nat (S i) +:+ ",") values
       ++ [ "}"; EmptyString ]
       ++ after)
  /\ rust_variant_name "none" = "None".
Proof.
  intros Horder Hname Hvalues. split; [| exact rust_variant_name_none].
  destruct (item_in_output dataclasses enums name Horder)
    as (before & after & E).
  exists before, after. rewrite E.
  rewrite (emit_item_enum _ _ name values Hname Hvalues).
  unfold variant_line. by rewrite <- !app_assoc.
Qed.

Lemma enum_ordinals_witness :
  exists before after,
    generate_rust_lines [] [("CommandScope", ["color"; "depth_stencil"; "none"])]
    = before
      ++ [ "#[derive(Clone, Copy, Debug, Deserialize_repr, Eq, PartialEq, Serialize_repr)]";
           "#[repr(u8)]";
           "pub enum CommandScope {" ]
      ++ [ "    Color = 1,"; "    DepthStencil = 2,"; "    None = 3," ]
      ++ [ "}"; EmptyString ]
      ++ after.
Proof.
  apply (enum_ordinals [] [("CommandScope", ["color"; "depth_stencil"; "none"])]
           "CommandScope" ["color"; "depth_stencil"; "none"]).
  - unfold order. repeat first [ apply list_elem_of_here | apply list_elem_of_further ].
  - discriminate.
  - reflexivity.
Defined.

Lemma reserved_identifier_differs (field_name : string) :
  field_name +:+ "_" <> field_name.
Proof. apply append_nonempty_neq. discriminate. Qed.

(** A field is emitted as its line, with or without a rename line before. *)
Lemma emit_field_cases
    (lines : list string) (field_name rust_type : string) :
  emit_field lines (field_name, rust_type)
    = lines ++ [field_line field_name rust_type]
  \/ emit_field lines (field_name, rust_type)
    = lines ++ [rename_line field_name; field_line field_name rust_type].
Proof.
  unfold emit_field, field_line, rename_line, field_identifier.
  destruct (_ || _); [right | left]; [| reflexivity].
  by rewrite <- app_assoc.
Qed.

(** C7: a field gets a rename annotation exactly when the identifier it is
    emitted under differs from its declared name, that is when the snake-case
    conversion changed the name or the name is reserved; the annotation
    carries the declared name. *)
Theorem rename_iff_identifier_differs
    (lines : list string) (field_name rust_type : string) :
  emit_field lines (field_name, rust_type)
  = lines
    ++ (if bool_decide (field_identifier field_name <> field_name)
        then [ "    #[serde(rename = " +:+ dquote +:+ field_name +:+ dquote
                 +:+ ")]" ]
        else [])
    ++ [ "    pub " +:+ field_identifier field_name +:+ ": " +:+ rust_type
           +:+ "," ]
  /\ (field_identifier field_name <> field_name <->
      to_snake_case field_name <> field_name
      \/ field_name ∈ RESERVED_KEYWORDS).
Proof.
  unfold emit_field, field_identifier.
  destruct (decide (field_name ∈ RESERVED_KEYWORDS)) as [Hres | Hres].
  - rewrite !(bool_decide_eq_true_2 _ Hres). rewrite orb_true_r.
    rewrite (bool_decide_eq_true_2 _ (reserved_identifier_differs field_name)).
    split.
    + simpl. by rewrite <- app_assoc.
    + split; [by right | intros _; apply reserved_identifier_differs].
  - rewrite !(bool_decide_eq_false_2 _ Hres). rewrite orb_false_r.
    destruct (String.eqb_spec (to_snake_case field_name) field_name)
      as [E | E]; simpl.
    + rewrite bool_decide_eq_false_2 by (intros H; by apply H).
      split; [reflexivity |].
      split; [intros H; by destruct H | intros [H | H]; [done | done]].
    + rewrite (bool_decide_eq_true_2 _ E).
      split; [by rewrite <- app_assoc |].
      split; [by left | done].
Qed.

Lemma declaration_of_is_Some dc_map enum_map name :
  is_Some (declaration_of dc_map enum_map name) <->
  name = "ConstantValue" \/ is_Some (enum_map !! name)
  \/ is_Some (dc_map !! name).
Proof.
  unfold declaration_of.
  destruct (String.eqb_spec name "ConstantValue") as [E | E].
  - split; [by left | by eauto].
  - destruct (enum_map !! name) as [values |].
    + split; [by right; left; eauto | by eauto].
    + destruct (dc_map !! name) as [fields |].
      * split; [by right; right; eauto | by eauto].
      * split; [by intros [? ?] |].
        intros [? | [[? ?] | [? ?]]]; done.
Qed.

Lemma variant_lines_no_declaration (start : nat) (values : list string) :
  filter (fun l => is_declaration_line l = true)
    (imap (fun i v => variant_line (start + i) v) values) = [].
Proof.
  revert start. induction values as [| v values IH]; intros start.
  - reflexivity.
  - simpl. rewrite filter_cons_False by (simpl; discriminate).
    rewrite <- (IH (S start)). f_equal. apply imap_ext.
    intros i x _. simpl. f_equal. lia.
Qed.

Lemma field_lines_no_declaration (fields : list (string * string)) :
  filter (fun l => is_declaration_line l = true)
    (flat_map (emit_field []) fields) = [].
Proof.
  induction fields as [| [field_name rust_type] fields IH]; [reflexivity |].
  simpl. rewrite filter_app, IH, app_nil_r.
  unfold emit_field. destruct (_ || _); reflexivity.
Qed.

(** An item holds one declaration line, or is empty. *)
Lemma item_declaration dc_map enum_map name :
  filter (fun l => is_declaration_line l = true)
    (emit_item dc_map enum_map [] name)
  = option_list (declaration_of dc_map enum_map name).
Proof.
  unfold declaration_of.
  destruct (String.eqb_spec name "ConstantValue") as [E | E].
  - unfold emit_item. rewrite (proj2 (String.eqb_eq _ _) E). reflexivity.
  - destruct (enum_map !! name) as [values |] eqn:Henum.
    + rewrite (emit_item_enum _ _ _ _ E Henum).
      rewrite !filter_app.
      change (imap (fun i v => variant_line (S i) v) values)
        with (imap (fun i v => variant_line (1 + i) v) values).
      rewrite (variant_lines_no_declaration 1 values). reflexivity.
    + destruct (dc_map !! name) as [fields |] eqn:Hdc.
      * rewrite (emit_item_record _ _ _ _ E Henum Hdc).
        rewrite !filter_app, field_lines_no_declaration.
        destruct (String.eqb name "VideoStd"); reflexivity.
      * unfold emit_item.
        rewrite (proj2 (String.eqb_neq _ _) E), Henum, Hdc. reflexivity.
Qed.

Lemma declarations_of_items dc_map enum_map names :
  filter (fun l => is_declaration_line l = true)
    (flat_map (emit_item dc_map enum_map []) names)
  = omap (declaration_of dc_map enum_map) names.
Proof.
  induction names as [| name names IH]; [reflexivity |].
  simpl. rewrite filter_app, IH, item_declaration.
  destruct (declaration_of dc_map enum_map name); reflexivity.
Qed.

(** A dict built from a list is the dict built from its front part with the
    last item written over it. *)
Lemma dict_of_snoc {V : Type} (items : list (string * V)) (item : string * V) :
  dict_of (items ++ [item]) = <[item.1 := item.2]> (dict_of items).
Proof. unfold dict_of. by rewrite foldl_app. Qed.

(** Dropping the items whose name fails [P] does not change what a name
    that passes [P] is bound to. *)
Lemma dict_of_filter {V : Type} (P : string -> Prop)
    (dec : forall k, Decision (P k)) (items : list (string * V)) (k : string) :
  P k ->
  dict_of (@filter _ _ _ (fun item => P item.1) (fun item => dec item.1) items)
    !! k
  = dict_of items !! k.
Proof.
  intros Hk. induction items as [| item items IH] using rev_ind.
  - reflexivity.
  - rewrite filter_app, dict_of_snoc. destruct item as [k' v]. simpl.
    destruct (decide (P k')) as [Hp | Hp].
    + rewrite filter_cons_True by exact Hp. rewrite filter_nil.
      rewrite dict_of_snoc.
      simpl. destruct (decide (k' = k)) as [-> | Hne].
      * by rewrite !lookup_insert_eq.
      * by rewrite !lookup_insert_ne.
    + rewrite filter_cons_False by exact Hp. rewrite filter_nil, app_nil_r.
      rewrite lookup_insert_ne; [exact IH |].
      intros ->. by apply Hp.
Qed.

Lemma flat_map_ext_elem {A B : Type} (f g : A -> list B) (l : list A) :
  (forall x, x ∈ l -> f x = g x) -> flat_map f l = flat_map g l.
Proof.
  induction l as [| x l IH]; intros H; [reflexivity |].
  simpl. rewrite (H x) by apply list_elem_of_here.
  rewrite IH; [reflexivity |].
  intros y Hy. apply H. by apply list_elem_of_further.
Qed.

Lemma emit_item_ext dc_map dc_map' enum_map enum_map' lines name :
  dc_map !! name = dc_map' !! name ->
  enum_map !! name = enum_map' !! name ->
  emit_item dc_map enum_map lines name = emit_item dc_map' enum_map' lines name.
Proof. intros Hd He. unfold emit_item. by rewrite Hd, He. Qed.

(** C8: the declaration lines of the output are those of the entries of
    [order] that name the synthetic union, an extracted enum or an extracted
    record, one per entry and in the sequence of [order]; and the output is
    the same when every extracted record and enum whose name is not in
    [order] is taken away. *)
Theorem declarations_follow_order
    (dataclasses : list (string * list (string * string)))
    (enums : list (string * list string)) :
  filter (fun l => is_declaration_line l = true)
    (generate_rust_lines dataclasses enums)
  = omap (declaration_of (dict_of dataclasses) (dict_of enums)) order
  /\ (forall name,
        is_Some (declaration_of (dict_of dataclasses) (dict_of enums) name) <->
        name = "ConstantValue" \/ is_Some (dict_of enums !! name)
        \/ is_Some (dict_of dataclasses !! name))
  /\ generate_rust dataclasses enums
     = generate_rust (filter (fun d => d.1 ∈ order) dataclasses)
         (filter (fun e => e.1 ∈ order) enums).
Proof.
  split; [| split].
  - rewrite generate_rust_lines_eq, filter_app, declarations_of_items.
    reflexivity.
  - intros name. apply declaration_of_is_Some.
  - unfold generate_rust. f_equal. rewrite !generate_rust_lines_eq. f_equal.
    apply flat_map_ext_elem. intros name Hin.
    apply emit_item_ext.
    + symmetry.
      exact (dict_of_filter (fun k => k ∈ order) _ dataclasses name Hin).
    + symmetry.
      exact (dict_of_filter (fun k => k ∈ order) _ enums name Hin).
Qed.

(** ** The run *)

(** When the source file is there, extraction does not raise and the output
    directory exists, [main] writes what [generate_rust] returns and prints
    the path of the file. *)
Lemma main_writes id_of ast_parse script_dir fs source dataclasses enums :
  files fs !! path_join script_dir "_vulkan_object.py" = Some source ->
  extract_classes id_of ast_parse source = Ok (dataclasses, enums) ->
  path_join script_dir "src" ∈ dirs fs ->
  main id_of ast_parse script_dir fs
  = Ok ({| files :=
             <[path_join (path_join script_dir "src") "vulkan_object.rs"
               := generate_rust dataclasses enums]> (files fs);
           dirs := dirs fs |},
        [ "Generated "
            +:+ path_join (path_join script_dir "src") "vulkan_object.rs" ]).
Proof.
  intros Hread Hextract Hdir. unfold main, read_text, write_text.
  rewrite Hread. simpl. rewrite Hextract. simpl.
  rewrite bool_decide_eq_true_2 by exact Hdir. reflexivity.
Qed.

(** The line of a field is in the lines of its record. *)
Lemma field_line_emitted (fields : list (string * string))
    (field_name rust_type : string) :
  (field_name, rust_type) ∈ fields ->
  field_line field_name rust_type ∈ flat_map (emit_field []) fields.
Proof.
  intros [f1 [f2 ->]]%list_elem_of_split.
  rewrite flat_map_app. cbn [flat_map].
  apply elem_of_app. right. apply elem_of_app. left.
  destruct (emit_field_cases [] field_name rust_type) as [-> | ->].
  - apply list_elem_of_here.
  - apply list_elem_of_further, list_elem_of_here.
Qed.

(** C2, as stated, fails: the field's annotation parses to "UNKNOWN", and
    the run writes the output file, with "UNKNOWN" as the type of the field,
    and reports nothing but the path of the file. *)
Lemma unknown_field_is_written :
  parse_type (fun _ => 0%N) (Subscript (Name "set") (Name "str"))
    "Version" "tags" = Ok "UNKNOWN"
  /\ written_and_printed
       (main (fun _ => 0%N) (fun _ => Ok unknown_tree) "."
          (script_fs unknown_source))
     = Ok (Some
             (String.concat newline
                [ "use indexmap::IndexMap;";
                  "use serde::{Deserialize, Serialize};";
                  "use serde_repr::{Deserialize_repr, Serialize_repr};";
                  EmptyString;
                  "#[derive(Clone, Debug, Deserialize, Serialize)]";
                  "pub struct Version {";
                  "    pub tags: UNKNOWN,";
                  "}";
                  EmptyString;
                  "#[derive(Clone, Debug, Deserialize, Serialize)]";
                  "#[serde(untagged)]";
                  "pub enum ConstantValue {";
                  "    Int(u64),";
                  "    Float(f64),";
                  "}";
                  EmptyString ]),
           [ "Generated ./src/vulkan_object.rs" ]).
Proof. split; vm_compute; reflexivity. Qed.

(** C2 (amended): a field whose annotation parses to "UNKNOWN" is recorded
    with that string as its type like any other field; a record of [order]
    that has such a field is emitted with the line [pub <identifier>: UNKNOWN,];
    and the run writes the output and prints the path of the file. *)
Theorem unknown_field_is_rendered
    (id_of : expr -> N) (ast_parse : string -> result stmt)
    (script_dir : string) (fs : filesystem) (source : string)
    (dataclasses : list (string * list (string * string)))
    (enums : list (string * list string))
    (name : string) (fields : list (string * string)) (field_name : string) :
  files fs !! path_join script_dir "_vulkan_object.py" = Some source ->
  extract_classes id_of ast_parse source = Ok (dataclasses, enums) ->
  path_join script_dir "src" ∈ dirs fs ->
  name ∈ order ->
  name <> "ConstantValue" ->
  dict_of enums !! name = None ->
  dict_of dataclasses !! name = Some fields ->
  (field_name, "UNKNOWN") ∈ fields ->
  (forall class_name fields0 field annotation body,
     parse_type id_of annotation class_name field = Ok "UNKNOWN" ->
     dataclass_fields id_of class_name fields0
       (AnnAssign (Name field) annotation :: body)
     = dataclass_fields id_of class_name (fields0 ++ [(field, "UNKNOWN")]) body)
  /\ ("    pub " +:+ field_identifier field_name +:+ ": UNKNOWN,")
       ∈ generate_rust_lines dataclasses enums
  /\ main id_of ast_parse script_dir fs
     = Ok ({| files :=
                <[path_join (path_join script_dir "src") "vulkan_object.rs"
                  := generate_rust dataclasses enums]> (files fs);
              dirs := dirs fs |},
           [ "Generated "
               +:+ path_join (path_join script_dir "src") "vulkan_object.rs" ]).
Proof.
  intros Hread Hextract Hdir Horder Hname Henum Hdc Hfield.
  split; [| split].
  - intros class_name fields0 field annotation body Hparse.
    simpl. rewrite Hparse. reflexivity.
  - destruct (item_in_output dataclasses enums name Horder)
      as (before & after & ->).
    rewrite (emit_item_record _ _ _ _ Hname Henum Hdc).
    apply elem_of_app. right. apply elem_of_app. left.
    apply elem_of_app. right. apply elem_of_app. left.
    exact (field_line_emitted fields field_name "UNKNOWN" Hfield).
  - by apply main_writes with (source := source).
Qed.

Lemma unknown_field_is_rendered_witness :
  "    pub tags: UNKNOWN," ∈ generate_rust_lines [("Version", [("tags", "UNKNOWN")])] [].
Proof.
  refine (proj1 (proj2
    (unknown_field_is_rendered (fun _ => 0%N) (fun _ => Ok unknown_tree) "."
       (script_fs unknown_source) unknown_source
       [("Version", [("tags", "UNKNOWN")])] [] "Version" [("tags", "UNKNOWN")]
       "tags" _ _ _ _ _ _ _ _))).
  - reflexivity.
  - reflexivity.
  - vm_compute. reflexivity.
  - unfold order.
    repeat first [ apply list_elem_of_here | apply list_elem_of_further ].
  - discriminate.
  - reflexivity.
  - reflexivity.
  - apply list_elem_of_here.
Defined.

(** C3, as stated, fails: from a source without any class both collections
    are empty, so every entry of [order] but the synthetic union names
    nothing; the run writes the preamble and the union and reports nothing
    but the path of the file. *)
Lemma missing_entries_do_not_fail :
  "FeatureRequirement" ∈ order
  /\ extract_classes (fun _ => 0%N) (fun _ => Ok (OtherNode [])) EmptyString
     = Ok ([], [])
  /\ written_and_printed
       (main (fun _ => 0%N) (fun _ => Ok (OtherNode [])) "."
          (script_fs EmptyString))
     = Ok (Some
             (String.concat newline
                [ "use indexmap::IndexMap;";
                  "use serde::{Deserialize, Serialize};";
                  "use serde_repr::{Deserialize_repr, Serialize_repr};";
                  EmptyString;
                  "#[derive(Clone, Debug, Deserialize, Serialize)]";
                  "#[serde(untagged)]";
                  "pub enum ConstantValue {";
                  "    Int(u64),";
                  "    Float(f64),";
                  "}";
                  EmptyString ]),
           [ "Generated ./src/vulkan_object.rs" ]).
Proof.
  split; [| split].
  - apply list_elem_of_here.
  - reflexivity.
  - vm_compute. reflexivity.
Qed.

(** C3 (amended): an entry of [order] that names neither the synthetic union
    nor an extracted enum nor an extracted record is skipped, it adds no line
    to the output; and the run writes the output and prints the path of the
    file. *)
Theorem absent_order_entry_is_skipped
    (id_of : expr -> N) (ast_parse : string -> result stmt)
    (script_dir : string) (fs : filesystem) (source : string)
    (dataclasses : list (string * list (string * string)))
    (enums : list (string * list string)) (name : string) :
  files fs !! path_join script_dir "_vulkan_object.py" = Some source ->
  extract_classes id_of ast_parse source = Ok (dataclasses, enums) ->
  path_join script_dir "src" ∈ dirs fs ->
  name <> "ConstantValue" ->
  dict_of enums !! name = None ->
  dict_of dataclasses !! name = None ->
  (forall lines,
     emit_item (dict_of dataclasses) (dict_of enums) lines name = lines)
  /\ main id_of ast_parse script_dir fs
     = Ok ({| files :=
                <[path_join (path_join script_dir "src") "vulkan_object.rs"
                  := generate_rust dataclasses enums]> (files fs);
              dirs := dirs fs |},
           [ "Generated "
               +:+ path_join (path_join script_dir "src") "vulkan_object.rs" ]).
Proof.
  intros Hread Hextract Hdir Hname Henum Hdc. split.
  - intros lines. unfold emit_item.
    rewrite (proj2 (String.eqb_neq _ _) Hname), Henum, Hdc. reflexivity.
  - by apply main_writes with (source := source).
Qed.

Lemma absent_order_entry_is_skipped_witness :
  emit_item (dict_of []) (dict_of []) preamble "FeatureRequirement" = preamble.
Proof.
  refine (proj1
    (absent_order_entry_is_skipped (fun _ => 0%N) (fun _ => Ok (OtherNode []))
       "." (script_fs EmptyString) EmptyString [] [] "FeatureRequirement"
       _ _ _ _ _ _) preamble).
  - reflexivity.
  - reflexivity.
  - vm_compute. reflexivity.
  - discriminate.
  - reflexivity.
  - reflexivity.
Defined.

(** ** Determinism *)

(** Induction on expressions that reaches the elements of a tuple and the
    arguments of a call. *)
Section ExprInduction.

Variable P : expr -> Prop.

Hypothesis HConstant : forall value, P (Constant value).
Hypothesis HName : forall id, P (Name id).
Hypothesis HAttribute : forall value attr, P value -> P (Attribute value attr).
Hypothesis HSubscript :
  forall value slice, P value -> P slice -> P (Subscript value slice).
Hypothesis HBinOp :
  forall l op r, P l -> P r -> P (BinOp l op r).
Hypothesis HTuple : forall elts, Forall P elts -> P (Tuple elts).
Hypothesis HCall : forall func args, P func -> Forall P args -> P (Call func args).
Hypothesis HOther : forall cls, P (OtherExpr cls).

Lemma expr_nested_ind : forall e : expr, P e.
Proof.
fix IH 1. intros [value | id | value attr | value slice | l op r | elts
                 | func args | cls].
- apply HConstant.
- apply HName.
- apply HAttribute, IH.
- apply HSubscript; apply IH.
- apply HBinOp; apply IH.
- apply HTuple. revert elts. fix IHelts 1. intros [| x elts].
  + constructor.
  + constructor; [apply IH | apply IHelts].
- apply HCall; [apply IH |]. revert args. fix IHargs 1. intros [| x args].
  + constructor.
  + constructor; [apply IH | apply IHargs].
- apply HOther.
Qed.

End ExprInduction.

(** The text of a node object is neither "list" nor "dict", wherever the
    object lives. *)
Lemma ast_str_not_a_generic (addr : N) (e : expr) :
  String.eqb (ast.str addr e) "list" = false
  /\ String.eqb (ast.str addr e) "dict" = false.
Proof. split; reflexivity. Qed.

(** The base of a subscript is compared with "list" and "dict" only, so the
    parse is the same under any two placements; for a tuple this holds of
    its elements too. *)
Lemma parse_type_addresses_nested (id1 id2 : expr -> N) (node : expr) :
  same_parse id1 id2 node
  /\ match node with
     | Tuple elts => Forall (same_parse id1 id2) elts
     | _ => True
     end.
Proof.
  induction node as
    [ value | id | value attr IH | value slice IHv IHs | l op r IHl IHr
    | elts IH | func args IHf IHa | cls ] using expr_nested_ind;
    (split; [intros c f | try exact I]); try reflexivity.
  - (* Subscript *)
    destruct IHs as [IHs IHelts].
    simpl. destruct (FIELD_TYPE_OVERRIDES !! (c, f)) as [ov |];
      [destruct (truthy ov); [reflexivity |] |].
    all: destruct value; try reflexivity.
    all: destruct (String.eqb id "list"); [ by rewrite (IHs c f) | ].
    all: destruct (String.eqb id "dict"); [| reflexivity ].
    all: destruct slice; try reflexivity.
    all: destruct elts as [| e0 rest]; [reflexivity |].
    all: apply Forall_cons in IHelts as [H0 Hrest]; rewrite (H0 c f).
    all: destruct rest as [| e1 rest]; [reflexivity |].
    all: apply Forall_cons in Hrest as [H1 _]; rewrite (H1 c f).
    all: reflexivity.
  - (* BinOp *)
    destruct IHl as [IHl _], IHr as [IHr _].
    simpl. rewrite (IHl c f), (IHr c f). reflexivity.
  - (* Tuple *)
    eapply Forall_impl; [exact IH |]. by intros x [Hx _].
Qed.

(** The addresses of the node objects do not show in the parse. *)
Lemma parse_type_addresses (id1 id2 : expr -> N) (node : expr) (c f : string) :
  parse_type id1 node c f = parse_type id2 node c f.
Proof. apply parse_type_addresses_nested. Qed.

Lemma dataclass_fields_addresses (id1 id2 : expr -> N) class_name body :
  forall fields,
    dataclass_fields id1 class_name fields body
    = dataclass_fields id2 class_name fields body.
Proof.
  induction body as [| item body IH]; intros fields; [reflexivity |].
  destruct item as [ | | target annotation | ]; simpl; try apply IH.
  destruct target; try apply IH.
  rewrite (parse_type_addresses id1 id2).
  destruct (parse_type id2 annotation class_name id); simpl;
    [apply IH | reflexivity].
Qed.

Lemma visit_addresses (id1 id2 : expr -> N) acc node :
  visit id1 acc node = visit id2 acc node.
Proof.
  destruct acc as [dataclasses enums].
  destruct node; try reflexivity.
  simpl. by rewrite (dataclass_fields_addresses id1 id2).
Qed.

Lemma visit_all_addresses (id1 id2 : expr -> N) nodes :
  forall acc, visit_all id1 acc nodes = visit_all id2 acc nodes.
Proof.
  induction nodes as [| node nodes IH]; intros acc; [reflexivity |].
  simpl. rewrite (visit_addresses id1 id2).
  destruct (visit id2 acc node); simpl; [apply IH | reflexivity].
Qed.

Lemma extract_classes_addresses (id1 id2 : expr -> N) ast_parse source :
  extract_classes id1 ast_parse source = extract_classes id2 ast_parse source.
Proof.
  unfold extract_classes, extract_tree.
  destruct (ast_parse source); simpl; [| reflexivity].
  apply visit_all_addresses.
Qed.

(** C9: two runs on the same source text give the same output text (or
    raise the same exception), wherever the two runs place the node objects
    in memory; and from the same files the two runs leave the same files and
    print the same lines. *)
Theorem transformation_deterministic
    (ast_parse : string -> result stmt) (id1 id2 : expr -> N) :
  (forall source,
     transform id1 ast_parse source = transform id2 ast_parse source)
  /\ (forall script_dir fs,
        main id1 ast_parse script_dir fs = main id2 ast_parse script_dir fs).
Proof.
  split.
  - intros source. unfold transform.
    by rewrite (extract_classes_addresses id1 id2).
  - intros script_dir fs. unfold main.
    destruct (read_text fs _) as [source |]; [| reflexivity].
    simpl. by rewrite (extract_classes_addresses id1 id2).
Qed.

(** The text of a node object does change with its address. *)
Example ast_str_shows_address :
  ast.str 1 (Attribute (Name "typing") "List")
  <> ast.str 2 (Attribute (Name "typing") "List").
Proof. discriminate. Qed.

(** ** The walk over the tree *)

Lemma node_size_children (node : stmt) :
  node_size node = S (queue_size (iter_child_nodes node)).
Proof.
  assert (H : forall l,
    (fix sizes (l : list stmt) : nat :=
       match l with
       | [] => 0
       | n :: l' => node_size n + sizes l'
       end) l = queue_size l).
  { induction l as [| n l IH]; [reflexivity |].
    unfold queue_size in *. simpl. by rewrite IH. }
  destruct node; simpl; rewrite ?H; reflexivity.
Qed.

Lemma subnodes_children (node : stmt) :
  subnodes node = node :: flat_map subnodes (iter_child_nodes node).
Proof.
  assert (H : forall l,
    (fix all (l : list stmt) : list stmt :=
       match l with
       | [] => []
       | n :: l' => subnodes n ++ all l'
       end) l = flat_map subnodes l).
  { induction l as [| n l IH]; [reflexivity |]. simpl. by rewrite IH. }
  destruct node; simpl; rewrite ?H; reflexivity.
Qed.

Lemma queue_size_app (q1 q2 : list stmt) :
  queue_size (q1 ++ q2) = queue_size q1 + queue_size q2.
Proof. unfold queue_size. by rewrite map_app, list_sum_app. Qed.

(** With fuel for every node of the queue, the walk yields the nodes of the
    queued trees, each one once. *)
Lemma walk_queue_subnodes (fuel : nat) :
  forall todo,
    queue_size todo <= fuel ->
    walk_queue fuel todo ≡ₚ flat_map subnodes todo.
Proof.
  induction fuel as [| fuel IH]; intros todo Hfuel.
  - destruct todo as [| node todo]; [reflexivity |].
    unfold queue_size in Hfuel. simpl in Hfuel.
    rewrite node_size_children in Hfuel. lia.
  - destruct todo as [| node todo]; [reflexivity |].
    simpl. rewrite subnodes_children. simpl. constructor.
    rewrite IH.
    + rewrite flat_map_app. apply Permutation_app_comm.
    + rewrite queue_size_app.
      unfold queue_size in Hfuel. simpl in Hfuel.
      rewrite node_size_children in Hfuel.
      fold (queue_size todo) in Hfuel. lia.
Qed.

(** The fuel [walk] starts with is enough: it yields every node of the
    tree, once. *)
Lemma walk_subnodes (tree : stmt) : walk tree ≡ₚ subnodes tree.
Proof.
  unfold walk. rewrite walk_queue_subnodes.
  - simpl. by rewrite app_nil_r.
  - unfold queue_size. simpl. lia.
Qed.

(** ** The schema extractor *)

(** What a successful visit adds to the two collections. *)
Lemma visit_names id_of acc node acc' :
  visit id_of acc node = Ok acc' ->
  map fst acc'.2
  = map fst acc.2
    ++ map node_name (filter (fun n => is_enum_class n = true) [node])
  /\ map fst acc'.1
     = map fst acc.1
       ++ map node_name
            (filter (fun n => is_dataclass_class n && negb (is_enum_class n)
                              = true) [node]).
Proof.
  destruct acc as [dataclasses enums]. intros H.
  destruct node as [name bases decorator_list body | | | ];
    try (inversion H; subst; simpl; by rewrite !app_nil_r).
  simpl in H.
  rewrite !filter_cons, !filter_nil. simpl.
  destruct (existsb is_enum_base bases) eqn:He.
  - destruct (enum_values [] body) as [values |]; [| discriminate].
    inversion H; subst. simpl.
    rewrite andb_false_r.
    repeat case_decide; try discriminate.
    simpl. by rewrite map_app, app_nil_r.
  - rewrite andb_true_r.
    destruct (existsb is_dataclass_decorator decorator_list) eqn:Hd.
    + destruct (dataclass_fields id_of name [] body) as [fields |];
        [| discriminate].
      inversion H; subst. simpl.
      repeat case_decide; try discriminate.
      simpl. by rewrite map_app, app_nil_r.
    + inversion H; subst. simpl.
      repeat case_decide; try discriminate.
      simpl. by rewrite !app_nil_r.
Qed.

Lemma visit_all_names id_of nodes :
  forall acc acc',
    visit_all id_of acc nodes = Ok acc' ->
    map fst acc'.2
    = map fst acc.2
      ++ map node_name (filter (fun n => is_enum_class n = true) nodes)
    /\ map fst acc'.1
       = map fst acc.1
         ++ map node_name
              (filter (fun n => is_dataclass_class n && negb (is_enum_class n)
                                = true) nodes).
Proof.
  induction nodes as [| node nodes IH]; intros acc acc' H.
  - inversion H; subst. simpl. by rewrite !app_nil_r.
  - simpl in H. destruct (visit id_of acc node) as [acc1 |] eqn:Hv;
      [| discriminate].
    simpl in H. apply IH in H as [He Hd].
    apply visit_names in Hv as [Hve Hvd].
    rewrite He, Hd, Hve, Hvd.
    change (node :: nodes) with ([node] ++ nodes).
    rewrite !filter_app, !map_app, <- !app_assoc. done.
Qed.

(** A visit leaves at least one of the two collections as it was. *)
Lemma visit_one_collection id_of acc node acc' :
  visit id_of acc node = Ok acc' -> acc'.1 = acc.1 \/ acc'.2 = acc.2.
Proof.
  destruct acc as [dataclasses enums]. intros H.
  destruct node as [name bases decorator_list body | | | ];
    try (inversion H; subst; by left).
  simpl in H.
  destruct (existsb is_enum_base bases).
  - destruct (enum_values [] body); [| discriminate].
    inversion H; subst. by left.
  - destruct (existsb is_dataclass_decorator decorator_list).
    + destruct (dataclass_fields id_of name [] body); [| discriminate].
      inversion H; subst. by right.
    + inversion H; subst. by left.
Qed.

(** C10: a class that derives from [Enum] and carries the [dataclass]
    decorator is visited as an enum: its visit adds it to the enums and
    leaves the dataclasses alone.  No visit adds to both collections, and
    after a walk the enums are the classes that derive from [Enum], the
    dataclasses the decorated classes that do not. *)
Theorem enum_takes_precedence
    (id_of : expr -> N) (name : string) (bases decorator_list : list expr)
    (body : list stmt) :
  existsb is_enum_base bases = true ->
  existsb is_dataclass_decorator decorator_list = true ->
  (forall dataclasses enums,
     visit id_of (dataclasses, enums)
       (ClassDef name bases decorator_list body)
     = (values ← enum_values [] body ;
        Ok (dataclasses, enums ++ [(name, values)])))
  /\ (forall acc node acc',
        visit id_of acc node = Ok acc' -> acc'.1 = acc.1 \/ acc'.2 = acc.2)
  /\ (forall tree dataclasses enums,
        extract_tree id_of tree = Ok (dataclasses, enums) ->
        map fst enums
        = map node_name (filter (fun n => is_enum_class n = true) (walk tree))
        /\ map fst dataclasses
           = map node_name
               (filter (fun n => is_dataclass_class n
                                 && negb (is_enum_class n) = true)
                  (walk tree))).
Proof.
  intros He Hd. split; [| split].
  - intros dataclasses enums. simpl. rewrite He. reflexivity.
  - apply visit_one_collection.
  - intros tree dataclasses enums H.
    unfold extract_tree in H.
    exact (visit_all_names id_of (walk tree) ([], []) (dataclasses, enums) H).
Qed.

Lemma enum_takes_precedence_witness :
  visit (fun _ => 0%N) ([], [])
    (ClassDef "CommandScope" [Name "Enum"] [Call (Name "dataclass") []]
       [ Assign [Name "primary"] (Constant (CInt 1));
         AnnAssign (Name "level") (Name "int") ])
  = Ok ([], [("CommandScope", ["primary"])]).
Proof.
  refine (proj1
    (enum_takes_precedence (fun _ => 0%N) "CommandScope" [Name "Enum"]
       [Call (Name "dataclass") []]
       [ Assign [Name "primary"] (Constant (CInt 1));
         AnnAssign (Name "level") (Name "int") ] _ _) [] []).
  - reflexivity.
  - reflexivity.
Defined.

(** ** The end-to-end scenarios *)

(** A record with the fields [stageMask: int | None] and [type: str], and an
    enum with the variants [color] and [depth_stencil]. *)
Example scenario_tree_extracted :
  extract_tree (fun _ => 0%N)
    (OtherNode
       [ ClassDef "CommandScope" [Name "Enum"] []
           [ Assign [Name "color"] (Constant (CInt 0));
             Assign [Name "depth_stencil"] (Constant (CInt 1)) ];
         ClassDef "Param" [] [Name "dataclass"]
           [ AnnAssign (Name "stageMask") (or_none (Name "int"));
             AnnAssign (Name "type") (Name "str") ] ])
  = Ok ([("Param", [("stageMask", "Option<u32>"); ("type", "String")])],
        [("CommandScope", ["color"; "depth_stencil"])]).
Proof. reflexivity. Qed.

Example scenario_lines :
  generate_rust_lines
    [("Param", [("stageMask", "Option<u32>"); ("type", "String")])]
    [("CommandScope", ["color"; "depth_stencil"])]
  = preamble
    ++ [ "#[derive(Clone, Debug, Deserialize, Serialize)]";
         "pub struct Param {";
         "    #[serde(rename = " +:+ dquote +:+ "stageMask" +:+ dquote +:+ ")]";
         "    pub stage_mask: Option<u32>,";
         "    #[serde(rename = " +:+ dquote +:+ "type" +:+ dquote +:+ ")]";
         "    pub type_: String,";
         "}";
         EmptyString;
         "#[derive(Clone, Copy, Debug, Deserialize_repr, Eq, PartialEq, Serialize_repr)]";
         "#[repr(u8)]";
         "pub enum CommandScope {";
         "    Color = 1,";
         "    DepthStencil = 2,";
         "}";
         EmptyString;
         "#[derive(Clone, Debug, Deserialize, Serialize)]";
         "#[serde(untagged)]";
         "pub enum ConstantValue {";
         "    Int(u64),";
         "    Float(f64),";
         "}";
         EmptyString ].
Proof. vm_compute. reflexivity. Qed.

(** A class nested in another one is found after the top-level classes. *)
Example walk_is_breadth_first :
  map node_name
    (walk
       (OtherNode
          [ ClassDef "Outer" [] [] [ ClassDef "Inner" [] [] [] ];
            ClassDef "Next" [] [] [] ]))
  = [EmptyString; "Outer"; "Next"; "Inner"].
Proof. reflexivity. Qed.

(** * Further properties *)

(** ** to_snake_case *)

Lemma to_lower_not_upper (c : ascii) : is_upper (to_lower c) = false.
Proof. destruct c as [[] [] [] [] [] [] [] []]; reflexivity. Qed.

Lemma to_lower_id (c : ascii) : is_upper c = false -> to_lower c = c.
Proof. unfold to_lower. by intros ->. Qed.

Lemma to_lower_underscore (c : ascii) :
  Ascii.eqb (to_lower c) "_" = Ascii.eqb c "_".
Proof. destruct c as [[] [] [] [] [] [] [] []]; reflexivity. Qed.

Lemma lower_no_upper (s : string) : no_upper (lower s) = true.
Proof.
  induction s as [| c s IH]; [reflexivity |].
  unfold no_upper in *. simpl. by rewrite to_lower_not_upper, IH.
Qed.

Lemma lower_id (s : string) : no_upper s = true -> lower s = s.
Proof.
  induction s as [| c s IH]; [reflexivity |].
  unfold no_upper in *. simpl. intros [Hc Hs]%andb_true_iff.
  rewrite to_lower_id by (by apply negb_true_iff). by rewrite IH.
Qed.

(** Induction along the scan of the regular expression: at a match the scan
    jumps over both letters, elsewhere it moves on by one. *)
Lemma re_sub_lower_upper_ind (P : string -> string -> Prop) :
  P EmptyString EmptyString ->
  (forall c, P (String c EmptyString) (String c EmptyString)) ->
  (forall c1 c2 s r,
     is_lower c1 && is_upper c2 = true -> P s r ->
     P (String c1 (String c2 s)) (String c1 (String "_" (String c2 r)))) ->
  (forall c1 c2 s r,
     is_lower c1 && is_upper c2 = false -> P (String c2 s) r ->
     P (String c1 (String c2 s)) (String c1 r)) ->
  forall s, P s (re_sub_lower_upper s).
Proof.
  intros Hnil Hone Hmatch Hstep s.
  enough (H : P s (re_sub_lower_upper s)
              /\ forall c, P (String c s) (re_sub_lower_upper (String c s)))
    by apply H.
  induction s as [| a s [IH1 IH2]].
  - split; [exact Hnil | exact Hone].
  - split; [apply IH2 |].
    intros c. simpl. destruct (is_lower c && is_upper a) eqn:E.
    + by apply Hmatch.
    + apply Hstep; [exact E | apply IH2].
Qed.

Lemma re_sub_lower_upper_id (s : string) :
  no_upper s = true -> re_sub_lower_upper s = s.
Proof.
  apply (re_sub_lower_upper_ind (fun s r => no_upper s = true -> r = s)).
  - done.
  - done.
  - intros c1 c2 s0 r [_ H2]%andb_true_iff _ Hno.
    unfold no_upper in Hno. simpl in Hno. rewrite H2 in Hno.
    simpl in Hno. by rewrite andb_false_r in Hno.
  - intros c1 c2 s0 r _ IH Hno. f_equal. apply IH.
    unfold no_upper in *. simpl in *. by apply andb_true_iff in Hno as [_ ?].
Qed.

(** X1: the snake-case form of a name holds no upper-case letter. *)
Theorem to_snake_case_no_upper (name : string) :
  no_upper (to_snake_case name) = true.
Proof. apply lower_no_upper. Qed.

Lemma snake_case_fixed (name : string) :
  to_snake_case name = name <-> no_upper name = true.
Proof.
  split.
  - intros <-. apply lower_no_upper.
  - intros H. unfold to_snake_case.
    rewrite (re_sub_lower_upper_id name H). by apply lower_id.
Qed.


(** X3: converting twice is converting once. *)
Theorem to_snake_case_idempotent (name : string) :
  to_snake_case (to_snake_case name) = to_snake_case name.
Proof. apply snake_case_fixed, lower_no_upper. Qed.




(** ** Fields *)



(** ** Variant identifiers *)

Lemma append_assoc (a b c : string) : (a +:+ b) +:+ c = a +:+ (b +:+ c).
Proof.
  induction a as [| x a IH]; [reflexivity |].
  change (String x ((a +:+ b) +:+ c) = String x (a +:+ (b +:+ c))).
  by rewrite IH.
Qed.

Lemma append_nil_r (a : string) : a +:+ EmptyString = a.
Proof.
  induction a as [| x a IH]; [reflexivity |].
  change (String x (a +:+ EmptyString) = String x a). by rewrite IH.
Qed.

Lemma string_forall_append (p : ascii -> bool) (a b : string) :
  string_forall p (a +:+ b) = string_forall p a && string_forall p b.
Proof.
  induction a as [| x a IH]; simpl; [reflexivity |].
  by rewrite IH, andb_assoc.
Qed.

Lemma string_forall_impl (p q : ascii -> bool) (s : string) :
  (forall c, p c = true -> q c = true) ->
  string_forall p s = true -> string_forall q s = true.
Proof.
  intros Hpq. induction s as [| c s IH]; simpl; [done |].
  intros [Hc Hs]%andb_true_iff. by rewrite (Hpq c Hc), IH.
Qed.

Lemma replace_append (old : ascii) (new a b : string) :
  replace old new (a +:+ b) = replace old new a +:+ replace old new b.
Proof.
  induction a as [| x a IH]; simpl; [reflexivity |].
  destruct (Ascii.eqb x old); simpl; rewrite IH; [| reflexivity].
  by rewrite append_assoc.
Qed.

(** What [replace] puts out passes [p] when the new text does and every
    character it keeps does. *)
Lemma string_forall_replace (p : ascii -> bool) (old : ascii) (new s : string) :
  string_forall p new = true ->
  string_forall (fun c => p c || Ascii.eqb c old) s = true ->
  string_forall p (replace old new s) = true.
Proof.
  intros Hnew. induction s as [| c s IH]; simpl; [done |].
  intros [Hc Hs]%andb_true_iff.
  destruct (Ascii.eqb c old) eqn:E.
  - rewrite string_forall_append, Hnew. simpl. by apply IH.
  - simpl. rewrite orb_false_r in Hc. rewrite Hc. simpl. by apply IH.
Qed.

Lemma to_upper_underscore (c : ascii) :
  Ascii.eqb (to_upper c) "_" = Ascii.eqb c "_".
Proof. destruct c as [[] [] [] [] [] [] [] []]; reflexivity. Qed.

Lemma title_from_no_underscore (b : bool) (s : string) :
  string_forall (fun c => negb (Ascii.eqb c "_")) s = true ->
  string_forall (fun c => negb (Ascii.eqb c "_")) (title_from b s) = true.
Proof.
  revert b. induction s as [| c s IH]; intros b; simpl; [done |].
  intros [Hc Hs]%andb_true_iff.
  destruct (is_lower c); [| destruct (is_upper c)]; simpl;
    rewrite ?IH by exact Hs; destruct b;
    rewrite ?to_upper_underscore, ?to_lower_underscore, ?Hc; reflexivity.
Qed.

(** A blank ends a word: the text after it is title-cased afresh. *)
Lemma title_from_blank (b : bool) (s t : string) :
  title_from b (s +:+ String " " t)
  = title_from b s +:+ String " " (title_from false t).
Proof.
  revert b. induction s as [| c s IH]; intros b; simpl; [reflexivity |].
  destruct (is_lower c); [| destruct (is_upper c)]; simpl; by rewrite IH.
Qed.

(** The test for "None" changes nothing. *)
Lemma rust_variant_name_eq (v : string) :
  rust_variant_name v
  = replace " " EmptyString (title (replace "_" " " v)).
Proof.
  unfold rust_variant_name.
  destruct (String.eqb_spec
              (replace " " EmptyString (title (replace "_" " " v))) "None")
    as [E | E]; [by rewrite E | reflexivity].
Qed.

(** X6: the identifier of a variant holds neither an underscore nor a
    blank, whatever the variant is called. *)
Theorem rust_variant_name_no_separator (v : string) :
  string_forall
    (fun c => negb (Ascii.eqb c "_") && negb (Ascii.eqb c " "))
    (rust_variant_name v) = true.
Proof.
  rewrite rust_variant_name_eq.
  apply string_forall_replace; [reflexivity |].
  apply string_forall_impl
    with (p := fun c => negb (Ascii.eqb c "_")).
  { intros c Hc. rewrite Hc. simpl. by destruct (Ascii.eqb c " "). }
  apply title_from_no_underscore.
  apply string_forall_replace; [reflexivity |].
  induction v as [| c v IH]; simpl; [done |].
  rewrite IH. by destruct (Ascii.eqb c "_").
Qed.

(** X7: an underscore only separates words: the identifier of [a_b] is the
    identifier of [a] followed by that of [b].  So a leading, a trailing or
    a doubled underscore leaves no trace in the identifier. *)
Theorem rust_variant_name_underscore (a b : string) :
  rust_variant_name (a +:+ "_" +:+ b)
  = rust_variant_name a +:+ rust_variant_name b.
Proof.
  rewrite !rust_variant_name_eq. unfold title.
  rewrite replace_append.
  change (replace "_" " " ("_" +:+ b)) with (String " " (replace "_" " " b)).
  rewrite title_from_blank, replace_append. reflexivity.
Qed.

(** ** More on the annotation parser *)

(** X8: in a field with an explicit type override the parse is the override
    for every annotation, also for one that would raise or be unknown
    without it. *)
Theorem override_wins (id_of : expr -> N) (node : expr) (c f override : string) :
  FIELD_TYPE_OVERRIDES !! (c, f) = Some override ->
  parse_type id_of node c f = Ok override.
Proof. apply parse_type_override. Qed.

Lemma override_wins_witness :
  parse_type (fun _ => 0%N) (Subscript (Name "dict") (Tuple [])) "Param" "alias"
  = Ok "Option<String>".
Proof.
  apply (override_wins (fun _ => 0%N) (Subscript (Name "dict") (Tuple []))
           "Param" "alias" "Option<String>").
  reflexivity.
Defined.

(** X9: without an override, [list[T]] parses to the vector of the parse of
    [T]; [dict[K, V, ...]] parses to the map from the parse of [K] to the
    parse of [V], arguments after the second are not looked at; a [dict]
    whose tuple has one element raises after parsing it, and one with the
    empty tuple raises at once. *)
Theorem generic_rules (id_of : expr -> N) (c f : string) :
  FIELD_TYPE_OVERRIDES !! (c, f) = None ->
  (forall T,
     parse_type id_of (Subscript (Name "list") T) c f
     = (inner ← parse_type id_of T c f ; Ok ("Vec<" +:+ inner +:+ ">")))
  /\ (forall K V rest,
        parse_type id_of (Subscript (Name "dict") (Tuple (K :: V :: rest))) c f
        = (key ← parse_type id_of K c f ;
           val ← parse_type id_of V c f ;
           Ok ("IndexMap<" +:+ key +:+ ", " +:+ val +:+ ">")))
  /\ (forall K,
        parse_type id_of (Subscript (Name "dict") (Tuple [K])) c f
        = (key ← parse_type id_of K c f ; Raise IndexError))
  /\ parse_type id_of (Subscript (Name "dict") (Tuple [])) c f
     = Raise IndexError.
Proof.
  intros Hov. repeat split; intros; simpl; rewrite Hov; reflexivity.
Qed.

Lemma generic_rules_witness :
  parse_type (fun _ => 0%N)
    (Subscript (Name "dict") (Tuple [Name "str"; Name "int"; Name "bool"]))
    "Format" "planes"
  = (key ← parse_type (fun _ => 0%N) (Name "str") "Format" "planes" ;
     val ← parse_type (fun _ => 0%N) (Name "int") "Format" "planes" ;
     Ok ("IndexMap<" +:+ key +:+ ", " +:+ val +:+ ">")).
Proof.
  refine (proj1 (proj2
    (generic_rules (fun _ => 0%N) "Format" "planes" _))
    (Name "str") (Name "int") [Name "bool"]).
  reflexivity.
Defined.









(** ** More on the schema extractor *)

(** X13: on success the extracted enums are, up to their order, the classes
    deriving from [Enum] anywhere in the tree, nested classes included, each
    one once; the extracted dataclasses are the decorated classes among the
    others. *)
Theorem extraction_covers_tree
    (id_of : expr -> N) (tree : stmt)
    (dataclasses : list (string * list (string * string)))
    (enums : list (string * list string)) :
  extract_tree id_of tree = Ok (dataclasses, enums) ->
  map fst enums
    ≡ₚ map node_name (filter (fun n => is_enum_class n = true) (subnodes tree))
  /\ map fst dataclasses
      ≡ₚ map node_name
           (filter (fun n => is_dataclass_class n && negb (is_enum_class n)
                             = true) (subnodes tree)).
Proof.
  intros H. unfold extract_tree in H.
  destruct (visit_all_names id_of (walk tree) ([], []) (dataclasses, enums) H)
    as [He Hd].
  simpl in He, Hd. rewrite He, Hd.
  split; apply Permutation_map, filter_Permutation, walk_subnodes.
Qed.

Lemma extraction_covers_tree_witness :
  map fst [("Inner", [] : list string)]
    ≡ₚ map node_name
         (filter (fun n => is_enum_class n = true)
            (subnodes
               (OtherNode
                  [ ClassDef "Outer" [] []
                      [ ClassDef "Inner" [Name "Enum"] [] [] ] ]))).
Proof.
  refine (proj1
    (extraction_covers_tree (fun _ => 0%N)
       (OtherNode
          [ ClassDef "Outer" [] [] [ ClassDef "Inner" [Name "Enum"] [] [] ] ])
       [] [("Inner", [])] _)).
  reflexivity.
Defined.

(** The walk with any fuel that covers the queue. *)
Lemma walk_queue_fuel (fuel : nat) :
  forall fuel' todo,
    queue_size todo <= fuel -> queue_size todo <= fuel' ->
    walk_queue fuel todo = walk_queue fuel' todo.
Proof.
  induction fuel as [| fuel IH]; intros fuel' todo H H'.
  - destruct todo as [| node todo]; [by destruct fuel' |].
    unfold queue_size in H. simpl in H.
    rewrite node_size_children in H. lia.
  - destruct todo as [| node todo]; [by destruct fuel' |].
    unfold queue_size in H, H'. simpl in H, H'.
    rewrite node_size_children in H, H'.
    fold (queue_size todo) in H, H'.
    destruct fuel' as [| fuel']; [lia |].
    simpl. f_equal. apply IH; rewrite queue_size_app; lia.
Qed.

Lemma queue_size_children (todo : list stmt) :
  queue_size (flat_map iter_child_nodes todo) + length todo = queue_size todo.
Proof.
  induction todo as [| node todo IH]; [reflexivity |].
  simpl. rewrite queue_size_app.
  unfold queue_size at 3. simpl. fold (queue_size todo).
  rewrite node_size_children. lia.
Qed.

(** The walk yields the queue as it stands, then walks the children. *)
Lemma walk_queue_level (todo : list stmt) :
  forall rest fuel,
    queue_size (todo ++ rest) <= fuel ->
    walk_queue fuel (todo ++ rest)
    = todo ++ walk_queue fuel (rest ++ flat_map iter_child_nodes todo).
Proof.
  induction todo as [| node todo IH]; intros rest fuel H.
  - simpl. by rewrite app_nil_r.
  - pose proof (queue_size_children todo) as Hc.
    rewrite queue_size_app in H.
    unfold queue_size at 1 in H. simpl in H. fold (queue_size todo) in H.
    rewrite node_size_children in H.
    destruct fuel as [| fuel]; [lia |].
    change (walk_queue (S fuel) ((node :: todo) ++ rest))
      with (node :: walk_queue fuel ((todo ++ rest) ++ iter_child_nodes node)).
    change ((node :: todo) ++
              walk_queue (S fuel)
                (rest ++ flat_map iter_child_nodes (node :: todo)))
      with (node :: todo ++
              walk_queue (S fuel)
                (rest ++ iter_child_nodes node
                   ++ flat_map iter_child_nodes todo)).
    f_equal. rewrite <- app_assoc.
    rewrite IH by (rewrite !queue_size_app; lia).
    f_equal. rewrite <- app_assoc.
    apply walk_queue_fuel; rewrite !queue_size_app; lia.
Qed.

Lemma visit_all_app id_of (a b : list stmt) :
  forall acc,
    visit_all id_of acc (a ++ b)
    = (acc' ← visit_all id_of acc a ; visit_all id_of acc' b).
Proof.
  induction a as [| node a IH]; intros acc; [reflexivity |].
  simpl. destruct (visit id_of acc node) as [acc1 |]; simpl;
    [apply IH | reflexivity].
Qed.

Lemma visit_all_simple id_of (nodes : list stmt) :
  forallb simple_stmt nodes = true ->
  forall acc, visit_all id_of acc nodes = Ok acc.
Proof.
  induction nodes as [| node nodes IH]; intros H acc; [reflexivity |].
  simpl in H. apply andb_true_iff in H as [Hn Hs].
  destruct acc as [dataclasses enums].
  destruct node; try discriminate Hn; simpl; by apply IH.
Qed.

Lemma children_of_simple (nodes : list stmt) :
  forallb simple_stmt nodes = true -> flat_map iter_child_nodes nodes = [].
Proof.
  induction nodes as [| node nodes IH]; [done |].
  simpl. intros [Hn Hs]%andb_true_iff. rewrite IH by exact Hs.
  by destruct node.
Qed.

Lemma walk_queue_nil (fuel : nat) : walk_queue fuel [] = [].
Proof. by destruct fuel. Qed.

(** A queue of statements without children is walked as it stands. *)
Lemma walk_queue_simple (fuel : nat) (todo : list stmt) :
  forallb simple_stmt todo = true ->
  queue_size todo <= fuel ->
  walk_queue fuel todo = todo.
Proof.
  intros Hsimple Hfuel.
  pose proof (walk_queue_level todo [] fuel) as Hlevel.
  rewrite app_nil_r in Hlevel. rewrite Hlevel by exact Hfuel.
  rewrite (children_of_simple _ Hsimple). simpl.
  by rewrite walk_queue_nil, app_nil_r.
Qed.

Lemma bind_Ok_r {A : Type} (r : result A) : (a ← r ; Ok a) = r.
Proof. by destruct r. Qed.

(** X14: in a module whose statements hold nothing but assignments and
    annotated assignments, that is whose classes are all at the top level,
    the classes are visited in the order of the source. *)
Theorem flat_module_in_source_order (id_of : expr -> N) (body : list stmt) :
  forallb simple_stmt (flat_map iter_child_nodes body) = true ->
  walk (OtherNode body)
  = OtherNode body :: body ++ flat_map iter_child_nodes body
  /\ extract_tree id_of (OtherNode body) = visit_all id_of ([], []) body.
Proof.
  intros Hsimple.
  assert (Hwalk : walk (OtherNode body)
                  = OtherNode body :: body ++ flat_map iter_child_nodes body).
  { unfold walk. rewrite (node_size_children (OtherNode body)).
    change (walk_queue (S (queue_size (iter_child_nodes (OtherNode body))))
              [OtherNode body])
      with (OtherNode body :: walk_queue (queue_size body) body).
    f_equal.
    pose proof (queue_size_children body) as Hc.
    pose proof (walk_queue_level body [] (queue_size body)) as Hlevel.
    rewrite app_nil_r in Hlevel. rewrite Hlevel by lia. f_equal.
    apply walk_queue_simple; [exact Hsimple | lia]. }
  split; [exact Hwalk |].
  unfold extract_tree. rewrite Hwalk.
  change (visit_all id_of ([], [])
            (OtherNode body :: body ++ flat_map iter_child_nodes body))
    with (visit_all id_of ([], [])
            (body ++ flat_map iter_child_nodes body)).
  rewrite visit_all_app.
  destruct (visit_all id_of ([], []) body) as [acc |]; simpl;
    [| reflexivity].
  by apply visit_all_simple.
Qed.

Lemma flat_module_in_source_order_witness :
  extract_tree (fun _ => 0%N)
    (OtherNode
       [ ClassDef "Version" [] [Name "dataclass"]
           [AnnAssign (Name "major") (Name "int")];
         ClassDef "Legacy" [] [Name "dataclass"]
           [AnnAssign (Name "link") (or_none (Name "str"))] ])
  = visit_all (fun _ => 0%N) ([], [])
      [ ClassDef "Version" [] [Name "dataclass"]
          [AnnAssign (Name "major") (Name "int")];
        ClassDef "Legacy" [] [Name "dataclass"]
          [AnnAssign (Name "link") (or_none (Name "str"))] ].
Proof.
  refine (proj2
    (flat_module_in_source_order (fun _ => 0%N)
       [ ClassDef "Version" [] [Name "dataclass"]
           [AnnAssign (Name "major") (Name "int")];
         ClassDef "Legacy" [] [Name "dataclass"]
           [AnnAssign (Name "link") (or_none (Name "str"))] ] _)).
  reflexivity.
Defined.

Lemma enum_values_collects (body : list stmt) :
  forallb well_targeted body = true ->
  forall values,
    enum_values values body = Ok (values ++ omap assigned_name body).
Proof.
  induction body as [| item body IH]; intros H values.
  - simpl. by rewrite app_nil_r.
  - simpl in H. apply andb_true_iff in H as [Hi Hb].
    destruct item as [| targets value | |]; simpl; try by apply IH.
    destruct targets as [| [] targets]; try discriminate Hi.
    simpl. rewrite IH by exact Hb. by rewrite <- app_assoc.
Qed.

Lemma enum_values_raises (body : list stmt) :
  forallb well_targeted body = false ->
  forall values,
    exists e, enum_values values body = Raise e
              /\ (e = AttributeError \/ e = IndexError).
Proof.
  induction body as [| item body IH]; intros H values; [discriminate |].
  simpl in H. apply andb_false_iff in H as [Hi | Hb].
  - destruct item as [| targets value | |]; try discriminate Hi.
    destruct targets as [| [] targets]; try discriminate Hi;
      simpl; eauto.
  - destruct item as [| targets value | |]; simpl; try by apply IH.
    destruct targets as [| [] targets]; simpl; eauto.
Qed.

(** X15: the values of an enum are the names its assignments bind first, in
    the order of the body, statements of any other kind being passed over;
    when an assignment has something else than a name as first target the
    loop raises and no value is returned. *)
Theorem enum_values_spec (values : list string) (body : list stmt) :
  (forallb well_targeted body = true
   /\ enum_values values body = Ok (values ++ omap assigned_name body))
  \/ (forallb well_targeted body = false
      /\ exists e, enum_values values body = Raise e
                   /\ (e = AttributeError \/ e = IndexError)).
Proof.
  destruct (forallb well_targeted body) eqn:E.
  - left. split; [reflexivity |]. by apply enum_values_collects.
  - right. split; [reflexivity |]. by apply enum_values_raises.
Qed.

Lemma dataclass_fields_in_order id_of class_name (body : list stmt) :
  forall fields fields',
    dataclass_fields id_of class_name fields body = Ok fields' ->
    exists new,
      fields' = fields ++ new
      /\ Forall2
           (fun field item =>
              field.1 = item.1
              /\ parse_type id_of item.2 class_name item.1 = Ok field.2)
           new (omap annotated body).
Proof.
  induction body as [| item body IH]; intros fields fields' H.
  - inversion H; subst. exists []. split; [by rewrite app_nil_r | constructor].
  - destruct item as [| | target annotation |]; simpl in H;
      try (by apply IH).
    destruct target; try (by apply IH).
    destruct (parse_type id_of annotation class_name id) as [rust_type |] eqn:E;
      [| discriminate].
    simpl in H. apply IH in H as (new & -> & Hall).
    exists ((id, rust_type) :: new). split; [by rewrite <- app_assoc |].
    simpl. constructor; [by split | exact Hall].
Qed.

(** X16: the fields of a dataclass are its annotated assignments to a name,
    in the order of the body, each with the parse of its annotation; other
    statements, and annotated assignments to anything but a name, add no
    field. *)
Theorem dataclass_fields_spec
    (id_of : expr -> N) (class_name : string) (body : list stmt)
    (fields : list (string * string)) :
  dataclass_fields id_of class_name [] body = Ok fields ->
  Forall2
    (fun field item =>
       field.1 = item.1
       /\ parse_type id_of item.2 class_name item.1 = Ok field.2)
    fields (omap annotated body).
Proof.
  intros H. apply dataclass_fields_in_order in H as (new & -> & Hall).
  exact Hall.
Qed.

Lemma dataclass_fields_spec_witness :
  Forall2
    (fun field item =>
       field.1 = item.1
       /\ parse_type (fun _ => 0%N) item.2 "Version" item.1 = Ok field.2)
    [("major", "u32"); ("name", "String")]
    (omap annotated
       [ AnnAssign (Name "major") (Name "int");
         Assign [Name "VERSION"] (Constant (CInt 1));
         AnnAssign (Attribute (Name "self") "x") (Name "int");
         AnnAssign (Name "name") (Name "str") ]).
Proof.
  apply (dataclass_fields_spec (fun _ => 0%N) "Version"
           [ AnnAssign (Name "major") (Name "int");
             Assign [Name "VERSION"] (Constant (CInt 1));
             AnnAssign (Attribute (Name "self") "x") (Name "int");
             AnnAssign (Name "name") (Name "str") ]
           [("major", "u32"); ("name", "String")]).
  reflexivity.
Defined.











(** ** More on the declaration emitter *)






(** The item of a name depends on the enum of that name and, when there is
    none, on the record of that name; the item of the synthetic union on
    neither. *)
Lemma emit_item_ext_names dc_map dc_map' enum_map enum_map' lines name :
  (name <> "ConstantValue" ->
   enum_map !! name = enum_map' !! name
   /\ (enum_map !! name = None -> dc_map !! name = dc_map' !! name)) ->
  emit_item dc_map enum_map lines name = emit_item dc_map' enum_map' lines name.
Proof.
  intros H. unfold emit_item.
  destruct (String.eqb_spec name "ConstantValue") as [E | E]; [reflexivity |].
  destruct (H E) as [He Hd]. rewrite <- He.
  destruct (enum_map !! name); [reflexivity |].
  by rewrite Hd.
Qed.

(** X20: an extracted record or enum called ConstantValue has no effect on
    the output: the entry of that name always stands for the synthetic
    union. *)
Theorem constant_value_is_synthetic
    (dataclasses : list (string * list (string * string)))
    (enums : list (string * list string)) :
  generate_rust dataclasses enums
  = generate_rust (filter (fun d => d.1 <> "ConstantValue") dataclasses)
      (filter (fun e => e.1 <> "ConstantValue") enums).
Proof.
  unfold generate_rust. f_equal. rewrite !generate_rust_lines_eq. f_equal.
  apply flat_map_ext_elem. intros name _.
  apply emit_item_ext_names. intros Hname. split.
  - symmetry.
    exact (dict_of_filter (fun k => k <> "ConstantValue") _ enums name Hname).
  - intros _. symmetry.
    exact (dict_of_filter (fun k => k <> "ConstantValue") _ dataclasses name
             Hname).
Qed.

(** X21: when a record and an enum of one name are both extracted, the enum
    is emitted and the record has no effect on the output. *)
Theorem enum_shadows_record
    (dataclasses : list (string * list (string * string)))
    (enums : list (string * list string)) :
  generate_rust dataclasses enums
  = generate_rust
      (filter (fun d => dict_of enums !! d.1 = None) dataclasses) enums.
Proof.
  unfold generate_rust. f_equal. rewrite !generate_rust_lines_eq. f_equal.
  apply flat_map_ext_elem. intros name _.
  apply emit_item_ext_names. intros _. split; [reflexivity |].
  intros Hnone. symmetry.
  exact (dict_of_filter (fun k => dict_of enums !! k = None) _ dataclasses
           name Hnone).
Qed.

(** An item is empty or ends with the empty line. *)
Lemma emit_item_ends_blank dc_map enum_map name :
  emit_item dc_map enum_map [] name = []
  \/ exists block, emit_item dc_map enum_map [] name = block ++ [EmptyString].
Proof.
  destruct (String.eqb_spec name "ConstantValue") as [E | E].
  - right. unfold emit_item. rewrite (proj2 (String.eqb_eq _ _) E).
    by exists [ "#[derive(Clone, Debug, Deserialize, Serialize)]";
                "#[serde(untagged)]"; "pub enum ConstantValue {";
                "    Int(u64),"; "    Float(f64),"; "}" ].
  - destruct (enum_map !! name) as [values |] eqn:Henum.
    + right. rewrite (emit_item_enum _ _ _ _ E Henum).
      exists ([ "#[derive(Clone, Copy, Debug, Deserialize_repr, Eq, PartialEq, Serialize_repr)]";
                "#[repr(u8)]";
                "pub enum " +:+ name +:+ " {" ]
              ++ imap (fun i v => variant_line (S i) v) values ++ ["}"]).
      by rewrite <- !app_assoc.
    + destruct (dc_map !! name) as [fields |] eqn:Hdc.
      * right. rewrite (emit_item_record _ _ _ _ E Henum Hdc).
        exists ([ "#[derive("
                    +:+ String.concat ", "
                          (if String.eqb name "VideoStd"
                           then ["Clone"; "Debug"; "Default"; "Deserialize";
                                 "Serialize"]
                           else ["Clone"; "Debug"; "Deserialize"; "Serialize"])
                    +:+ ")]";
                  "pub struct " +:+ name +:+ " {" ]
                ++ flat_map (emit_field []) fields ++ ["}"]).
        by rewrite <- !app_assoc.
      * left. unfold emit_item.
        by rewrite (proj2 (String.eqb_neq _ _) E), Henum, Hdc.
Qed.

Lemma items_end_blank dc_map enum_map (names : list string) :
  forall front,
    exists front',
      (front ++ [EmptyString])
        ++ flat_map (emit_item dc_map enum_map []) names
      = (front ++ front') ++ [EmptyString].
Proof.
  induction names as [| name names IH]; intros front.
  - exists []. simpl. by rewrite !app_nil_r.
  - simpl. destruct (emit_item_ends_blank dc_map enum_map name)
      as [-> | [block ->]].
    + apply IH.
    + destruct (IH (front ++ [EmptyString] ++ block)) as [front' E].
      exists (([EmptyString] ++ block) ++ front').
      rewrite !app_assoc in *. exact E.
Qed.

Lemma concat_snoc (sep x : string) (front : list string) :
  front <> [] ->
  String.concat sep (front ++ [x]) = String.concat sep front +:+ sep +:+ x.
Proof.
  induction front as [| y front IH]; [done |]. intros _.
  destruct front as [| z front]; [reflexivity |].
  change (String.concat sep ((y :: z :: front) ++ [x]))
    with (y +:+ sep +:+ String.concat sep ((z :: front) ++ [x])).
  rewrite IH by done.
  change (String.concat sep (y :: z :: front))
    with (y +:+ sep +:+ String.concat sep (z :: front)).
  by rewrite !append_assoc.
Qed.

(** X22: the last line of the output is empty, so the text of the output
    ends with a newline, whatever was extracted. *)
Theorem output_ends_with_newline
    (dataclasses : list (string * list (string * string)))
    (enums : list (string * list string)) :
  exists front,
    generate_rust_lines dataclasses enums = front ++ [EmptyString]
    /\ generate_rust dataclasses enums
       = String.concat newline front +:+ newline.
Proof.
  destruct (items_end_blank (dict_of dataclasses) (dict_of enums) order
              [ "use indexmap::IndexMap;";
                "use serde::{Deserialize, Serialize};";
                "use serde_repr::{Deserialize_repr, Serialize_repr};" ])
    as [front' E].
  eexists. unfold generate_rust. rewrite generate_rust_lines_eq.
  split; [exact E |].
  change preamble
    with ([ "use indexmap::IndexMap;";
            "use serde::{Deserialize, Serialize};";
            "use serde_repr::{Deserialize_repr, Serialize_repr};" ]
          ++ [EmptyString]).
  rewrite E. rewrite concat_snoc by done.
  by rewrite append_nil_r.
Qed.

(** ** More on the run *)

Lemma append_inj_r (a b c : string) : a +:+ b = a +:+ c -> b = c.
Proof.
  induction a as [| x a IH]; [done |].
  intros H. apply IH. by inversion H.
Qed.

(** The source file and the output file are two paths. *)
Lemma source_is_not_output (script_dir : string) :
  path_join (path_join script_dir "src") "vulkan_object.rs"
  <> path_join script_dir "_vulkan_object.py".
Proof.
  unfold path_join. rewrite !append_assoc. intros H.
  apply append_inj_r in H. discriminate H.
Qed.

(** What a run that returns has found and done. *)
Lemma main_Ok_inv id_of ast_parse script_dir fs fs' printed :
  main id_of ast_parse script_dir fs = Ok (fs', printed) ->
  exists source dataclasses enums,
    files fs !! path_join script_dir "_vulkan_object.py" = Some source
    /\ extract_classes id_of ast_parse source = Ok (dataclasses, enums)
    /\ path_join script_dir "src" ∈ dirs fs
    /\ fs' = {| files :=
                  <[path_join (path_join script_dir "src") "vulkan_object.rs"
                    := generate_rust dataclasses enums]> (files fs);
                dirs := dirs fs |}.
Proof.
  unfold main, read_text, write_text. intros H.
  destruct (files fs !! path_join script_dir "_vulkan_object.py")
    as [source |] eqn:Hread; [| discriminate].
  simpl in H.
  destruct (extract_classes id_of ast_parse source)
    as [[dataclasses enums] |] eqn:Hextract; [| discriminate].
  simpl in H. case_bool_decide as Hdir; [| discriminate].
  simpl in H. inversion H; subst.
  by exists source, dataclasses, enums.
Qed.

(** X23: a run that returns has written the output file and nothing else:
    every other path, the source file among them, holds what it held, and
    the directories are the same. *)
Theorem main_writes_one_file
    (id_of : expr -> N) (ast_parse : string -> result stmt)
    (script_dir : string) (fs fs' : filesystem) (printed : list string) :
  main id_of ast_parse script_dir fs = Ok (fs', printed) ->
  (forall path,
     path <> path_join (path_join script_dir "src") "vulkan_object.rs" ->
     files fs' !! path = files fs !! path)
  /\ files fs' !! path_join script_dir "_vulkan_object.py"
     = files fs !! path_join script_dir "_vulkan_object.py"
  /\ dirs fs' = dirs fs
  /\ is_Some
       (files fs' !! path_join (path_join script_dir "src") "vulkan_object.rs").
Proof.
  intros H.
  destruct (main_Ok_inv _ _ _ _ _ _ H)
    as (source & dataclasses & enums & Hread & Hextract & Hdir & ->).
  simpl. repeat split.
  - intros path Hpath. by rewrite lookup_insert_ne.
  - rewrite lookup_insert_ne; [done |]. apply source_is_not_output.
  - rewrite lookup_insert_eq. by eexists.
Qed.

Lemma main_writes_one_file_witness :
  files (script_fs unknown_source) !! "./_vulkan_object.py"
  = Some unknown_source
  /\ exists fs' printed,
       main (fun _ => 0%N) (fun _ => Ok unknown_tree) "."
         (script_fs unknown_source) = Ok (fs', printed)
       /\ files fs' !! path_join "." "_vulkan_object.py"
          = files (script_fs unknown_source) !! path_join "." "_vulkan_object.py".
Proof.
  split; [reflexivity |].
  eexists _, _. split.
  - apply (main_writes _ _ "." (script_fs unknown_source) unknown_source
             [("Version", [("tags", "UNKNOWN")])] []);
      [reflexivity | reflexivity | vm_compute; reflexivity].
  - refine (proj1 (proj2
      (main_writes_one_file (fun _ => 0%N) (fun _ => Ok unknown_tree) "."
         (script_fs unknown_source) _ _ _))).
    apply (main_writes _ _ "." (script_fs unknown_source) unknown_source
             [("Version", [("tags", "UNKNOWN")])] []);
      [reflexivity | reflexivity | vm_compute; reflexivity].
Defined.

(** X24: a second run on what the first run left writes the same text and
    leaves the files as they are. *)
Theorem main_rerun
    (id_of : expr -> N) (ast_parse : string -> result stmt)
    (script_dir : string) (fs fs' : filesystem) (printed : list string) :
  main id_of ast_parse script_dir fs = Ok (fs', printed) ->
  main id_of ast_parse script_dir fs' = Ok (fs', printed).
Proof.
  intros H.
  destruct (main_Ok_inv _ _ _ _ _ _ H)
    as (source & dataclasses & enums & Hread & Hextract & Hdir & ->).
  rewrite (main_writes id_of ast_parse script_dir fs source dataclasses enums
             Hread Hextract Hdir) in H.
  inversion H; subst.
  rewrite (main_writes id_of ast_parse script_dir _ source dataclasses enums).
  - simpl. by rewrite insert_insert_eq.
  - simpl. rewrite lookup_insert_ne; [exact Hread |].
    apply source_is_not_output.
  - exact Hextract.
  - exact Hdir.
Qed.

Lemma main_rerun_witness :
  exists fs' printed,
    main (fun _ => 0%N) (fun _ => Ok unknown_tree) "."
      (script_fs unknown_source) = Ok (fs', printed)
    /\ main (fun _ => 0%N) (fun _ => Ok unknown_tree) "." fs'
       = Ok (fs', printed).
Proof.
  eexists _, _.
  assert (H : main (fun _ => 0%N) (fun _ => Ok unknown_tree) "."
                (script_fs unknown_source)
              = Ok ({| files :=
                         <[path_join (path_join "." "src") "vulkan_object.rs"
                           := generate_rust [("Version", [("tags", "UNKNOWN")])]
                                []]> (files (script_fs unknown_source));
                       dirs := dirs (script_fs unknown_source) |},
                    [ "Generated "
                        +:+ path_join (path_join "." "src")
                              "vulkan_object.rs" ])).
  { apply (main_writes _ _ "." (script_fs unknown_source) unknown_source
             [("Version", [("tags", "UNKNOWN")])] []);
      [reflexivity | reflexivity | vm_compute; reflexivity]. }
  split; [exact H |].
  exact (main_rerun _ _ _ _ _ _ H).
Defined.
